(** * eKeys: keyframe evaluation with cubic-Bezier easing

    A shallow embedding of the two entry points of the repository,

    - [EKeys]: the one-shot form [eKeys.animate(inputKeyframes, options)]
      of [eKeys.jsx];
    - [AnimGroup]: the construction-plus-query form
      [AnimGroup(inputKeyframes).anim(time)];

    together with the easing constructor [bezier] that both carry
    ([Easing]), what the two share ([Keys]) and the fragment of JavaScript
    they rely on ([JS]).  The vocabulary of the properties and the inputs of
    the examples follow the embedding; the properties come last.

    JavaScript numbers are IEEE 754 binary64 values: they are modelled by
    Rocq's primitive floats, whose operations are the same binary64
    operations, so that [0.1 + 0.2] is the number JavaScript computes.
    Exceptions are modelled by an error monad.  What the environment
    decides (the layer's time, typed arrays, the text of a number) is a
    parameter, [Host]. *)

From Stdlib Require Import Floats ZArith QArith Qround Qabs List String Ascii Bool Lia.
From Stdlib Require Import DecimalString Sorting.Sorted Sorting.Permutation.
Import ListNotations.

#[local] Set Warnings "-inexact-float".

Local Open Scope string_scope.
Local Open Scope float_scope.

(** ** The fragment of JavaScript the library relies on *)

Module JS.

(** Values that can occur in a keyframe descriptor.  Arrays hold numbers
    (the declared type of [keyValue] is [number | number[]]).  Arrays and
    objects carry the identity of the object they denote, because [===]
    compares them by reference: [Some r] names an object that may be shared,
    [None] is an object that nothing else refers to (a literal used once, or
    an array freshly built by [map]). *)
Inductive value : Type :=
| VUndefined
| VNull
| VBoolean (b : bool)
| VNumber (n : float)
| VString (s : string)
| VArray (ref : option nat) (elts : list float)
| VObject (ref : option nat).

(** What a [throw] carries: [new Error(msg)], [new TypeError(msg)], or a
    [TypeError] raised by the engine itself (reading a property of
    [undefined], calling something that is not a function), whose text is
    the engine's own. *)
Inductive exn : Type :=
| Error (message : string)
| TypeError (message : string)
| NativeTypeError.

(** A computation either returns or throws. *)
Inductive result (A : Type) : Type :=
| Return (a : A)
| Throw (e : exn).

Arguments Return {A} a.
Arguments Throw {A} e.

Definition bind {A B : Type} (m : result A) (k : A -> result B) : result B :=
  match m with
  | Return a => k a
  | Throw e => Throw e
  end.

Declare Scope js_scope.
Delimit Scope js_scope with js.

Notation "x <- m ;; k" := (bind m (fun x => k))
  (at level 61, m at next level, right associativity) : js_scope.
Notation "m ;;; k" := (bind m (fun _ => k))
  (at level 61, right associativity) : js_scope.

Local Open Scope js_scope.

(** [array.map(f)] where [f] may throw: elements are visited in index order
    and the first exception aborts the whole call. *)
Fixpoint mapi_from {A B : Type} (f : A -> nat -> result B) (index : nat)
  (l : list A) : result (list B) :=
  match l with
  | [] => Return []
  | x :: l' =>
      y <- f x index ;;
      ys <- mapi_from f (S index) l' ;;
      Return (y :: ys)
  end.

Definition Array_map {A B : Type} (f : A -> nat -> result B) (l : list A)
  : result (list B) :=
  mapi_from f 0 l.

(** [array.map((item, index) => ...)] with a callback that cannot throw. *)
Fixpoint mapi_pure_from {A B : Type} (f : A -> nat -> B) (index : nat)
  (l : list A) : list B :=
  match l with
  | [] => []
  | x :: l' => f x index :: mapi_pure_from f (S index) l'
  end.

Definition Array_mapi {A B : Type} (f : A -> nat -> B) (l : list A) : list B :=
  mapi_pure_from f 0 l.

(** Reading [array[index]] for arithmetic: an index past the end reads
    [undefined], which arithmetic turns into [NaN]. *)
Definition element (l : list float) (index : nat) : float := nth index l nan.

(** [array.sort(compareFn)]: a stable sort driven by the sign of
    [compareFn(a, b)]; an element moves past the elements that compare
    strictly greater than it, so equal elements keep their input order. *)
Fixpoint insert_sorted {A : Type} (compareFn : A -> A -> float) (x : A)
  (l : list A) : list A :=
  match l with
  | [] => [x]
  | y :: l' =>
      if 0 <? compareFn y x then x :: y :: l'
      else y :: insert_sorted compareFn x l'
  end.

Definition Array_sort {A : Type} (compareFn : A -> A -> float) (l : list A)
  : list A :=
  fold_left (fun sorted x => insert_sorted compareFn x sorted) l [].

(** [Math.max] and [Math.min] on two numbers: [NaN] is contagious and
    [+0] is larger than [-0]. *)
Definition Math_max (a b : float) : float :=
  if is_nan a || is_nan b then nan
  else if a <? b then b
  else if b <? a then a
  else if get_sign a then b else a.

Definition Math_min (a b : float) : float :=
  if is_nan a || is_nan b then nan
  else if a <? b then a
  else if b <? a then b
  else if get_sign a then a else b.

(** The number denoted by an array index or a loop counter. *)
Definition Number_of_nat (n : nat) : float :=
  of_uint63 (Uint63.of_Z (Z.of_nat n)).

(** A non-negative integer inside a template literal: its decimal digits. *)
Definition String_of_nat (n : nat) : string :=
  NilZero.string_of_uint (Nat.to_uint n).

(** [a === b]. *)
Definition same_ref (r1 r2 : option nat) : bool :=
  match r1, r2 with
  | Some a, Some b => Nat.eqb a b
  | _, _ => false
  end.

Definition strict_equal (a b : value) : bool :=
  match a, b with
  | VUndefined, VUndefined => true
  | VNull, VNull => true
  | VBoolean x, VBoolean y => Bool.eqb x y
  | VNumber x, VNumber y => x =? y
  | VString x, VString y => String.eqb x y
  | VArray r1 _, VArray r2 _ => same_ref r1 r2
  | VObject r1, VObject r2 => same_ref r1 r2
  | _, _ => false
  end.

(** [v == null]. *)
Definition loosely_null (v : value) : bool :=
  match v with
  | VUndefined | VNull => true
  | _ => false
  end.

Definition Array_isArray (v : value) : bool :=
  match v with
  | VArray _ _ => true
  | _ => false
  end.

(** [typeof v === 'number'] *)
Definition typeof_number (v : value) : bool :=
  match v with
  | VNumber _ => true
  | _ => false
  end.

(** An object literal: its own enumerable string-keyed properties in
    property order.  A property read that finds nothing yields
    [undefined]. *)
Definition object : Type := list (string * value).

Fixpoint get (o : object) (name : string) : value :=
  match o with
  | [] => VUndefined
  | (k, v) :: o' => if String.eqb k name then v else get o' name
  end.

(** A destructuring default: [name = d] takes [d] when the property reads
    as [undefined]. *)
Definition get_default (o : object) (name : string) (d : value) : value :=
  match get o name with
  | VUndefined => d
  | v => v
  end.

(** The double-quote character, for messages that quote a name. *)
Definition dquote : string := String (ascii_of_nat 34) EmptyString.

(** The host: what the environment, and not the library, decides. *)
Record Host : Type := {
  (** [thisLayer.time], the default query time of the one-shot form *)
  thisLayer_time : float;
  (** [typeof Float32Array === 'function'] *)
  float32ArraySupported : bool;
  (** [Number::toString], used when a number lands in a template literal *)
  Number_toString : float -> string
}.

(** [`${v}`] *)
Definition String_of_value (h : Host) (v : value) : string :=
  match v with
  | VUndefined => "undefined"
  | VNull => "null"
  | VBoolean true => "true"
  | VBoolean false => "false"
  | VNumber n => Number_toString h n
  | VString s => s
  | VArray _ elts => String.concat "," (map (Number_toString h) elts)
  | VObject _ => "[object Object]"
  end.

(** Storing a number into a [Float32Array] rounds it to binary32 (to
    nearest, ties to even); reading it back widens it exactly. *)
Definition fround (x : float) : float :=
  match Prim2SF x with
  | S754_finite s m e =>
      SF2Prim (binary_normalize 24 128 (cond_Zopp s (Zpos m)) e s)
  | _ => x
  end.

End JS.

(** ** A reference host

    [Number::toString] in radix 10 as ECMAScript words it: the shortest
    digit string [s] (of [k] digits, scaled by [10^(n-k)]) that reads back
    as the same binary64 value, the closest to it when several do, laid out
    in positional or exponent notation according to [n]. *)

Module NumberToString.
Local Open Scope Q_scope.

Definition pow (b : Z) (e : Z) : Q := Qred (Qpower (inject_Z b) e).

Definition String_of_Z (z : Z) : string := NilZero.string_of_uint (N.to_uint (Z.to_N z)).

Fixpoint zeros (n : nat) : string :=
  match n with O => "" | S n' => "0" ++ zeros n' end.

(** The [n] with [10^(n-1) <= x < 10^n], reached from an estimate. *)
Fixpoint adjust (fuel : nat) (x : Q) (n : Z) : Z :=
  match fuel with
  | O => n
  | S fuel' =>
      if Qle_bool (pow 10 n) x then adjust fuel' x (n + 1)%Z
      else if Qle_bool (pow 10 (n - 1)) x then n
      else adjust fuel' x (n - 1)%Z
  end.

Definition Qabs_diff (a b : Q) : Q := Qabs (a - b).

Section Digits.
Variables (x lo hi : Q) (inclusive : bool) (n0 : Z).

Definition inside (q : Q) : bool :=
  if inclusive then Qle_bool lo q && Qle_bool q hi
  else negb (Qle_bool q lo) && negb (Qle_bool hi q).

(** The [k]-digit strings just below and just above [x]; one is kept when
    it lies in the interval of reals [lo..hi] that round to [x]. *)
Definition candidate (k : Z) : option Z :=
  let scale := pow 10 (n0 - k) in
  let below := Qfloor (x / scale) in
  let above := (below + 1)%Z in
  let qb := inject_Z below * scale in
  let qa := inject_Z above * scale in
  match inside qb, inside qa with
  | true, false => Some below
  | false, true => Some above
  | true, true =>
      match Qabs_diff qb x ?= Qabs_diff qa x with
      | Lt => Some below
      | Gt => Some above
      | Eq => Some (if Z.even below then below else above)
      end
  | false, false => None
  end.

Fixpoint shortest (fuel : nat) (k : Z) : Z * Z :=
  match fuel with
  | O => (0%Z, k)
  | S fuel' =>
      match candidate k with
      | Some s => (s, k)
      | None => shortest fuel' (k + 1)%Z
      end
  end.
End Digits.

Definition format (s n : Z) : string :=
  let digits := String_of_Z s in
  let k := Z.of_nat (String.length digits) in
  if ((k <=? n) && (n <=? 21))%Z then
    digits ++ zeros (Z.to_nat (n - k))
  else if ((0 <? n) && (n <=? 21))%Z then
    substring 0 (Z.to_nat n) digits ++ "." ++
    substring (Z.to_nat n) (Z.to_nat (k - n)) digits
  else if ((-6 <? n) && (n <=? 0))%Z then
    "0." ++ zeros (Z.to_nat (- n)) ++ digits
  else
    let e := (n - 1)%Z in
    let exponent := (if (e <? 0)%Z then "-" else "+") ++ String_of_Z (Z.abs e) in
    if (k =? 1)%Z then digits ++ "e" ++ exponent
    else substring 0 1 digits ++ "." ++
         substring 1 (Z.to_nat (k - 1)) digits ++ "e" ++ exponent.

(** A positive finite value [m * 2^e] in canonical form.  The reals that
    round to it lie half a gap below and above it, ends included when [m] is
    even; the gap below a power of two is half the gap above. *)
Definition positive_toString (m : positive) (e : Z) : string :=
  let x := inject_Z (Zpos m) * pow 2 e in
  let up := pow 2 (e - 1) in
  let down :=
    if (Pos.eqb m 4503599627370496 && (-1074 <? e)%Z)%bool
    then pow 2 (e - 2) else pow 2 (e - 1) in
  let n0 := adjust 4 x (((Z.log2 (Zpos m) + e) * 1233) / 4096 + 1)%Z in
  let '(s, k) := shortest x (x - down) (x + up) (Z.even (Zpos m)) n0 17 1%Z in
  if (s =? 10 ^ k)%Z then format (10 ^ (k - 1))%Z (n0 + 1)%Z
  else format s n0.

Definition Number_toString (x : float) : string :=
  match Prim2SF x with
  | S754_nan => "NaN"
  | S754_zero _ => "0"
  | S754_infinity s => if s then "-Infinity" else "Infinity"
  | S754_finite s m e =>
      (if s then "-" else "") ++ positive_toString m e
  end.
End NumberToString.

(** The host used where a closed evaluation needs one: a layer at time 0 in
    an engine with typed arrays. *)
Definition referenceHost : JS.Host :=
  {| JS.thisLayer_time := 0;
     JS.float32ArraySupported := true;
     JS.Number_toString := NumberToString.Number_toString |}.

(** ** The easing solver

    [bezier] is written out twice in the repository, once inside
    [eKeys.animate] and once inside [AnimGroup], with the same text (the
    bezier-easing routine of G. Renaudeau).  It is embedded once. *)

Module Easing.
Import JS.
Local Open Scope js_scope.

Definition NEWTON_ITERATIONS : nat := 4.
Definition NEWTON_MIN_SLOPE : float := 0.001.
Definition SUBDIVISION_PRECISION : float := 0.0000001.
Definition SUBDIVISION_MAX_ITERATIONS : nat := 10.

Definition kSplineTableSize : nat := 11.
Definition kSampleStepSize : float := 1.0 / (Number_of_nat kSplineTableSize - 1.0).

Definition A (aA1 aA2 : float) : float := 1.0 - 3.0 * aA2 + 3.0 * aA1.
Definition B (aA1 aA2 : float) : float := 3.0 * aA2 - 6.0 * aA1.
Definition C (aA1 : float) : float := 3.0 * aA1.

(** x(t) given t, x1 and x2, or y(t) given t, y1 and y2. *)
Definition calcBezier (aT aA1 aA2 : float) : float :=
  ((A aA1 aA2 * aT + B aA1 aA2) * aT + C aA1) * aT.

(** dx/dt given t, x1 and x2, or dy/dt given t, y1 and y2. *)
Definition getSlope (aT aA1 aA2 : float) : float :=
  3.0 * A aA1 aA2 * aT * aT + 2.0 * B aA1 aA2 * aT + C aA1.

(** The [do ... while] of [binarySubdivide]; [more] counts the passes still
    allowed after the current one, so the whole loop starts with
    [SUBDIVISION_MAX_ITERATIONS - 1]. *)
Fixpoint binarySubdivide_loop (more : nat) (aX aA aB mX1 mX2 : float) : float :=
  let currentT := aA + (aB - aA) / 2.0 in
  let currentX := calcBezier currentT mX1 mX2 - aX in
  match more with
  | O => currentT
  | S more' =>
      if SUBDIVISION_PRECISION <? abs currentX then
        if 0.0 <? currentX
        then binarySubdivide_loop more' aX aA currentT mX1 mX2
        else binarySubdivide_loop more' aX currentT aB mX1 mX2
      else currentT
  end.

Definition binarySubdivide (aX aA aB mX1 mX2 : float) : float :=
  binarySubdivide_loop (pred SUBDIVISION_MAX_ITERATIONS) aX aA aB mX1 mX2.

(** The [for] of [newtonRaphsonIterate], [passes] iterations left. *)
Fixpoint newtonRaphson_loop (passes : nat) (aX aGuessT mX1 mX2 : float) : float :=
  match passes with
  | O => aGuessT
  | S passes' =>
      let currentSlope := getSlope aGuessT mX1 mX2 in
      if currentSlope =? 0.0 then aGuessT
      else
        let currentX := calcBezier aGuessT mX1 mX2 - aX in
        newtonRaphson_loop passes' aX (aGuessT - currentX / currentSlope) mX1 mX2
  end.

Definition newtonRaphsonIterate (aX aGuessT mX1 mX2 : float) : float :=
  newtonRaphson_loop NEWTON_ITERATIONS aX aGuessT mX1 mX2.

Definition LinearEasing (x : float) : float := x.

(** Range guard of [bezier]. *)
Definition xValuesInRange (mX1 mX2 : float) : bool :=
  (0 <=? mX1) && (mX1 <=? 1) && (0 <=? mX2) && (mX2 <=? 1).

Section WithHost.
Variable h : Host.

(** The precomputed table: [sampleValues[i] = calcBezier(i * kSampleStepSize,
    mX1, mX2)], kept in a [Float32Array] when the host has one. *)
Definition store (x : float) : float :=
  if float32ArraySupported h then fround x else x.

Definition sampleValues (mX1 mX2 : float) : list float :=
  map (fun i => store (calcBezier (Number_of_nat i * kSampleStepSize) mX1 mX2))
      (seq 0 kSplineTableSize).

(** Reading [sampleValues[i]]; an index outside the table reads
    [undefined], which is [NaN] in the arithmetic that follows. *)
Definition sample (table : list float) (i : nat) : float := nth i table nan.

(** The [for] of [getTForX]: [toLast] is [lastSample - currentSample], so
    [currentSample !== lastSample] is [toLast <> 0]. *)
Fixpoint findInterval (toLast : nat) (table : list float) (aX : float)
  (intervalStart : float) (currentSample : nat) : float * nat :=
  match toLast with
  | O => (intervalStart, currentSample)
  | S toLast' =>
      if sample table currentSample <=? aX
      then findInterval toLast' table aX (intervalStart + kSampleStepSize)
             (S currentSample)
      else (intervalStart, currentSample)
  end.

Definition getTForX (table : list float) (mX1 mX2 : float) (aX : float) : float :=
  let lastSample := pred kSplineTableSize in
  let '(intervalStart, currentSample) :=
    findInterval (lastSample - 1) table aX 0.0 1 in
  let currentSample := pred currentSample in
  (* Interpolate to provide an initial guess for t *)
  let dist :=
    (aX - sample table currentSample) /
    (sample table (S currentSample) - sample table currentSample) in
  let guessForT := intervalStart + dist * kSampleStepSize in
  let initialSlope := getSlope guessForT mX1 mX2 in
  if NEWTON_MIN_SLOPE <=? initialSlope then
    newtonRaphsonIterate aX guessForT mX1 mX2
  else if initialSlope =? 0.0 then guessForT
  else binarySubdivide aX intervalStart (intervalStart + kSampleStepSize) mX1 mX2.

Definition bezierEasing (table : list float) (mX1 mY1 mX2 mY2 : float)
  (x : float) : float :=
  if x =? 0 then 0
  else if x =? 1 then 1
  else calcBezier (getTForX table mX1 mX2 x) mY1 mY2.

(** Creates the bezier curve and returns the function that computes the
    eased value. *)
Definition bezier (mX1 mY1 mX2 mY2 : float) : result (float -> float) :=
  if negb (xValuesInRange mX1 mX2) then
    Throw (Error "bezier x values must be in [0, 1] range")
  else if (mX1 =? mY1) && (mX2 =? mY2) then
    Return LinearEasing
  else
    Return (bezierEasing (sampleValues mX1 mX2) mX1 mY1 mX2 mY2).

End WithHost.

End Easing.

(** ** What the two entry points share

    The validated keyframe, and the helpers [getType], [isValidType] and
    [requiredArgumentError], which both files define alike. *)

Module Keys.
Import JS.
Local Open Scope js_scope.

(** A validated keyframe ([validKey]).  Validation only lets numbers
    through for the five numeric fields, so they are kept as numbers;
    [keyValue] is a number or an array. *)
Record Keyframe : Type := {
  keyTime : float;
  keyValue : value;
  easeIn : float;
  easeOut : float;
  velocityIn : float;
  velocityOut : float
}.

(** Reading a property of a validated keyframe by name.  The object has the
    six properties above and no other, so any other name reads
    [undefined]. *)
Definition Keyframe_get (k : Keyframe) (name : string) : value :=
  if String.eqb name "keyTime" then VNumber (keyTime k)
  else if String.eqb name "keyValue" then keyValue k
  else if String.eqb name "easeIn" then VNumber (easeIn k)
  else if String.eqb name "easeOut" then VNumber (easeOut k)
  else if String.eqb name "velocityIn" then VNumber (velocityIn k)
  else if String.eqb name "velocityOut" then VNumber (velocityOut k)
  else VUndefined.

(** More reliable version of standard js typeof: the class name that
    [Object.prototype.toString] reports, in lower case. *)
Definition getType (v : value) : string :=
  match v with
  | VUndefined => "undefined"
  | VNull => "null"
  | VBoolean _ => "boolean"
  | VNumber _ => "number"
  | VString _ => "string"
  | VArray _ _ => "array"
  | VObject _ => "object"
  end.

(** An expected type is a type name or an array of type names. *)
Inductive expectedType : Type :=
| TypeName (name : string)
| TypeNames (names : list string).

(** [`${expectedType}`] *)
Definition String_of_expected (e : expectedType) : string :=
  match e with
  | TypeName name => name
  | TypeNames names => String.concat "," names
  end.

(** Checks if a variable type matches the given expected type. *)
Definition isValidType (argumentType : string) (expected : expectedType) : bool :=
  match expected with
  | TypeName name => String.eqb argumentType name
  | TypeNames names =>
      Nat.ltb 0 (List.length (filter (fun type => String.eqb argumentType type) names))
  end.

(** Error message template for missing required argument. *)
Definition requiredArgumentError {A : Type} (variableName functionName : string)
  : result A :=
  Throw (Error (variableName ++ " is required in " ++ functionName)).

(** The number held by a value that passed the ['number'] check. *)
Definition asNumber (v : value) : float :=
  match v with
  | VNumber n => n
  | _ => nan
  end.

(** Animate between values according to progress. *)
Definition animateValueFromProgress (startVal endVal progressAmount : float) : float :=
  let valueDelta := endVal - startVal in
  startVal + valueDelta * progressAmount.

(** Set current key to most recent keyframe: the loop
    [while (curKeyNum < lastKeyNum && time >= keys[curKeyNum + 1].keyTime)
    curKeyNum++], walking the keys that follow [keys[curKeyNum]]. *)
Fixpoint advance (following : list Keyframe) (time : float) (curKeyNum : nat) : nat :=
  match following with
  | [] => curKeyNum
  | next :: following' =>
      if keyTime next <=? time then advance following' time (S curKeyNum)
      else curKeyNum
  end.

Definition getCurrentKeyNum (keys : list Keyframe) (time : float) : nat :=
  advance (tl keys) time 0.

(** The comparator handed to [sort]: [(a, b) => a.keyTime - b.keyTime]. *)
Definition byKeyTime (a b : Keyframe) : float := keyTime a - keyTime b.

End Keys.

(** ** The one-shot form: [eKeys.animate] ([eKeys.jsx]) *)

Module EKeys.
Import JS Keys.
Local Open Scope js_scope.

(** The table [interpolators]; [linear] is the entry with no easing and no
    acceleration.  Called as an interpolator it receives the progress and
    the two ease values, and uses the first. *)
Definition interpolatorFn : Type := float -> float -> float -> result float.

Definition linear : interpolatorFn := fun t _ _ => Return t.

(** The other entries of [interpolators] that are polynomials in [t].  A
    body that starts with [--t] first replaces [t] by [t - 1] and then
    multiplies with the new [t].  (The three elastic entries call
    [Math.sin] and are not embedded.) *)
Definition easeInQuad (t : float) : float := t * t.
Definition easeOutQuad (t : float) : float := t * (2 - t).
Definition easeInOutQuad (t : float) : float :=
  if t <? 0.5 then 2 * t * t else -1 + (4 - 2 * t) * t.
Definition easeInCubic (t : float) : float := t * t * t.
Definition easeOutCubic (t : float) : float :=
  let t := t - 1 in t * t * t + 1.
Definition easeInOutCubic (t : float) : float :=
  if t <? 0.5 then 4 * t * t * t else (t - 1) * (2 * t - 2) * (2 * t - 2) + 1.
Definition easeInQuart (t : float) : float := t * t * t * t.
Definition easeOutQuart (t : float) : float :=
  let t := t - 1 in 1 - t * t * t * t.
Definition easeInOutQuart (t : float) : float :=
  if t <? 0.5 then 8 * t * t * t * t
  else let t := t - 1 in 1 - 8 * t * t * t * t.
Definition easeInQuint (t : float) : float := t * t * t * t * t.
Definition easeOutQuint (t : float) : float :=
  let t := t - 1 in 1 + t * t * t * t * t.
Definition easeInOutQuint (t : float) : float :=
  if t <? 0.5 then 16 * t * t * t * t * t
  else let t := t - 1 in 1 + 16 * t * t * t * t * t.

(** The entries of [interpolators] embedded here, by name: the table
    without [easeInElastic], [easeOutElastic] and [easeInOutElastic]. *)
Definition polynomialInterpolators : list (string * (float -> float)) :=
  [("linear", fun t => t);
   ("easeInQuad", easeInQuad); ("easeOutQuad", easeOutQuad);
   ("easeInOutQuad", easeInOutQuad);
   ("easeInCubic", easeInCubic); ("easeOutCubic", easeOutCubic);
   ("easeInOutCubic", easeInOutCubic);
   ("easeInQuart", easeInQuart); ("easeOutQuart", easeOutQuart);
   ("easeInOutQuart", easeInOutQuart);
   ("easeInQuint", easeInQuint); ("easeOutQuint", easeOutQuint);
   ("easeInOutQuint", easeInOutQuint)].

(** An entry of the table used as the [interpolator] option: it is called
    with the progress and the two ease values and reads the first. *)
Definition asInterpolator (f : float -> float) : interpolatorFn :=
  fun t _ _ => Return (f t).

(** The second argument of [animate]. An absent [inputTime] is
    [VUndefined], an absent [interpolator] is [None]. *)
Record Options : Type := {
  inputTime : value;
  interpolator : option interpolatorFn
}.

(** Error message template for an incorrect type. *)
Definition typeErrorMessage {A : Type} (variableName : string)
  (expected : expectedType) (receivedType : string) : result A :=
  Throw (TypeError (variableName ++ " must be of type " ++
                    String_of_expected expected ++ ". Received " ++ receivedType)).

(** Each entry is [[name, value, expectedType]]; the first entry whose value
    has another type throws. *)
Fixpoint checkTypes (checkingArray : list (string * value * expectedType))
  : result unit :=
  match checkingArray with
  | [] => Return tt
  | (name, v, expected) :: checkingArray' =>
      let argumentType := getType v in
      if negb (isValidType argumentType expected)
      then typeErrorMessage name expected argumentType
      else checkTypes checkingArray'
  end.

(** The property names the destructuring pattern of [validateKeyframe]
    takes out; the rest pattern [...nonValidKeyProps] collects every other
    property. *)
Definition validKeyProps : list string :=
  ["keyTime"; "keyValue"; "easeIn"; "easeOut"; "velocityIn"; "velocityOut"].

Definition nonValidKeyProps (key : object) : object :=
  filter (fun p => negb (existsb (String.eqb (fst p)) validKeyProps)) key.

Definition getOwnPropertyNames (o : object) : list string := map fst o.

Definition includes (names : list string) (name : string) : bool :=
  existsb (String.eqb name) names.

Definition unexpectedPropertyMessage (index : nat) (invalidPropNames : list string)
  : string :=
  let triedTime := includes invalidPropNames "time" in
  let triedValue := includes invalidPropNames "value" in
  "Unexpected property on keyframe " ++ String_of_nat index ++ ": " ++
  String.concat ", " invalidPropNames ++
  (if triedTime then ". Did you mean " ++ dquote ++ "keyTime" ++ dquote ++ "?" else "") ++
  (if triedValue then ". Did you mean " ++ dquote ++ "keyValue" ++ dquote ++ "?" else "").

(** Make sure that a given keyframe is valid.
    Sets defaults and checks for errors. *)
Definition validateKeyframe (key : object) (index : nat) : result Keyframe :=
  (* Set keyframe defaults *)
  let keyTime := get key "keyTime" in
  let keyValue := get key "keyValue" in
  let easeIn := get_default key "easeIn" (VNumber 33) in
  let easeOut := get_default key "easeOut" (VNumber 33) in
  let velocityIn := get_default key "velocityIn" (VNumber 0) in
  let velocityOut := get_default key "velocityOut" (VNumber 0) in
  let invalidPropNames := getOwnPropertyNames (nonValidKeyProps key) in
  if negb (Nat.eqb (List.length invalidPropNames) 0) then
    (* Extra parameters were added to a keyframe *)
    Throw (Error (unexpectedPropertyMessage index invalidPropNames))
  else
    (* Alert the user if an eKey is missing the required arguments *)
    (if loosely_null keyTime
     then requiredArgumentError "keyValue" ("keyframe " ++ String_of_nat index)
     else Return tt) ;;;
    (if loosely_null keyValue
     then requiredArgumentError "keyValue" ("keyframe " ++ String_of_nat index)
     else Return tt) ;;;
    (* Check data types of keyframe parameters *)
    checkTypes [
      ("Keyframe " ++ String_of_nat index ++ " time", keyTime, TypeName "number");
      ("Keyframe " ++ String_of_nat index ++ " value", keyValue,
         TypeNames ["number"; "array"]);
      ("Keyframe " ++ String_of_nat index ++ " easeIn", easeIn, TypeName "number");
      ("Keyframe " ++ String_of_nat index ++ " easeOut", easeOut, TypeName "number");
      ("Keyframe " ++ String_of_nat index ++ " velocityIn", velocityIn,
         TypeName "number");
      ("Keyframe " ++ String_of_nat index ++ " velocityOut", velocityOut,
         TypeName "number")
    ] ;;;
    (* Return validated keyframe *)
    Return {| Keys.keyTime := asNumber keyTime;
              Keys.keyValue := keyValue;
              Keys.easeIn := asNumber easeIn;
              Keys.easeOut := asNumber easeOut;
              Keys.velocityIn := asNumber velocityIn;
              Keys.velocityOut := asNumber velocityOut |}.

(** Validate and sort the given keys: the binding [validKeys]. *)
Definition validKeys (inputKeyframes : list object) : result (list Keyframe) :=
  keys <- Array_map validateKeyframe inputKeyframes ;;
  Return (Array_sort byKeyTime keys).

(** Performs animation on each element of array individually. *)
Definition animateArrayFromProgress (curKeyNum : nat)
  (startArray endArray : list float) (progressAmount : float) : result value :=
  if negb (Nat.eqb (List.length startArray) (List.length endArray)) then
    (* Check that the key values are the same dimension *)
    Throw (TypeError
      ("Keyframe " ++ String_of_nat curKeyNum ++ " and " ++
       String_of_nat (curKeyNum + 1) ++
       " values must be of the same dimension. Received " ++
       String_of_nat (List.length startArray) ++ " and " ++
       String_of_nat (List.length endArray)))
  else
    (* Array Subtraction *)
    let arrayDelta :=
      Array_mapi (fun dimension index =>
                    let curKeyDim := dimension in
                    let nextKeyDim := element startArray index in
                    curKeyDim - nextKeyDim) endArray in
    (* Multiply difference by progress *)
    let deltaProgressed := map (fun item => item * progressAmount) arrayDelta in
    (* Add to current key and return *)
    Return (VArray None
      (Array_mapi (fun item index => item + element deltaProgressed index)
                  startArray)).

Section WithHost.
Variable h : Host.

(** Animation progress amount between 0 and 1: the binding
    [linearProgress], with [movedTime] and [animationLength] before it. *)
Definition linearProgress (curKey nextKey : Keyframe) (time : float) : float :=
  (* Incrementing time value that starts from the current keyTime *)
  let movedTime := Math_max (time - keyTime curKey) 0 in
  (* The total duration of the animation *)
  let animationLength := keyTime nextKey - keyTime curKey in
  Math_min 1 (movedTime / animationLength).

(** The binding [easedProgress]: a custom interpolator, when one was passed
    in, opts out of bezier generation; otherwise a bezier function is
    generated and given the progress amount. *)
Definition easedProgress (interpolator : option interpolatorFn)
  (curKey nextKey : Keyframe) (linearProgress : float) : result float :=
  match interpolator with
  | Some custom => custom linearProgress (easeOut curKey) (easeIn nextKey)
  | None =>
      easing <- Easing.bezier h
                  (easeOut curKey / 100) (velocityOut curKey / 100)
                  (1 - easeIn nextKey / 100) (1 - velocityIn nextKey / 100) ;;
      Return (easing linearProgress)
  end.

(** The part of [animateBetweenKeys] that follows the binding of [curKey]
    and [nextKey]. *)
Definition animateFromTo (interpolator : option interpolatorFn)
  (curKeyNum : nat) (curKey nextKey : Keyframe) (time : float) : result value :=
  (* Check to see if no animation is required between current keys *)
  if strict_equal (keyValue curKey) (keyValue nextKey)
  then Return (keyValue curKey)
  (* If we're on the keyframe, return its value *)
  else if time =? keyTime curKey then Return (keyValue curKey)
  else
    easedProgress <-
      easedProgress interpolator curKey nextKey
        (linearProgress curKey nextKey time) ;;
    (* Animate between values according to whether they are arrays *)
    match keyValue curKey, keyValue nextKey with
    | VArray _ startArray, VArray _ endArray =>
        animateArrayFromProgress curKeyNum startArray endArray easedProgress
    | VNumber startVal, VNumber endVal =>
        Return (VNumber (animateValueFromProgress startVal endVal easedProgress))
    | startValue, endValue =>
        (* If the keys aren't both arrays or numbers, return an error *)
        Throw (Error
          ("Keyframe " ++ String_of_nat curKeyNum ++ " and " ++
           String_of_nat (curKeyNum + 1) ++
           " values must be of the same type. Received " ++
           getType startValue ++ " and " ++ getType endValue))
    end.

(** Returns the final animated value. *)
Definition animateBetweenKeys (interpolator : option interpolatorFn)
  (keys : list Keyframe) (time : float) : result value :=
  match nth_error keys (List.length keys - 1), nth_error keys 0 with
  | Some lastKey, Some firstKey =>
      (* If outside of all keys, return closest key value, skip animation *)
      if time <=? keyTime firstKey then Return (keyValue firstKey)
      else if keyTime lastKey <=? time then Return (keyValue lastKey)
      else
        let curKeyNum := getCurrentKeyNum keys time in
        match nth_error keys curKeyNum, nth_error keys (curKeyNum + 1) with
        | Some curKey, Some nextKey =>
            animateFromTo interpolator curKeyNum curKey nextKey time
        | _, _ =>
            (* [keys[curKeyNum + 1]] is [undefined]: reading its [keyValue]
               throws *)
            Throw NativeTypeError
        end
  | _, _ =>
      (* no keyframe at all: [firstKey] is [undefined] *)
      Throw NativeTypeError
  end.

(** The function that's called from After Effects as [eKeys.animate()].
    [inputKeyframes] is a list of descriptors, so the ['array'] check of the
    first argument holds by its type; the check of the time remains. *)
Definition animate (inputKeyframes : list object) (options : option Options)
  : result value :=
  let options :=
    match options with
    | Some o => o
    | None => {| inputTime := VNumber (thisLayer_time h); interpolator := None |}
    end in
  let inputTime :=
    match inputTime options with
    | VUndefined => VNumber (thisLayer_time h)
    | t => t
    end in
  (* Validate function inputs *)
  checkTypes [(".animate() input time", inputTime, TypeName "number")] ;;;
  (* Validate and sort the given keys *)
  validKeys <- validKeys inputKeyframes ;;
  animateBetweenKeys (interpolator options) validKeys (asNumber inputTime).

End WithHost.

End EKeys.

(** ** The construction-plus-query form: [AnimGroup(inputKeyframes).anim] *)

Module AnimGroup.
Import JS Keys.
Local Open Scope js_scope.

Section WithHost.
Variable h : Host.

(** Error message template for an incorrect type.  Here the first argument
    is the checked value itself, which the template turns into text. *)
Definition typeErrorMessage {A : Type} (variableName : value)
  (expected : expectedType) (receivedType : string) : result A :=
  Throw (TypeError (String_of_value h variableName ++ " must be of type " ++
                    String_of_expected expected ++ ". Received " ++ receivedType)).

(** Loops through an array of the format [[variable, 'expectedType']] and
    checks if each variable is of the expected type; throws a [TypeError]
    if it's not. *)
Fixpoint checkTypes (checkingArray : list (value * expectedType)) : result unit :=
  match checkingArray with
  | [] => Return tt
  | (v, expected) :: checkingArray' =>
      let argumentType := getType v in
      if negb (isValidType argumentType expected)
      then typeErrorMessage v expected argumentType
      else checkTypes checkingArray'
  end.

(** A destructuring default that throws: [name = requiredArgumentError(...)]
    is evaluated when the property reads as [undefined]. *)
Definition get_required (key : object) (name functionName : string) : result value :=
  match get key name with
  | VUndefined => requiredArgumentError name functionName
  | v => Return v
  end.

(** Make sure that a given keyframe is valid.
    Sets defaults and checks for errors. *)
Definition validateKeyframe (key : object) (index : nat) : result Keyframe :=
  (* Set keyframe defaults *)
  keyTime <- get_required key "keyTime" ("keyframe " ++ String_of_nat index) ;;
  keyValue <- get_required key "keyValue" ("keyframe " ++ String_of_nat index) ;;
  let easeIn := get_default key "easeIn" (VNumber 33) in
  let easeOut := get_default key "easeOut" (VNumber 33) in
  let velocityIn := get_default key "velocityIn" (VNumber 0) in
  let velocityOut := get_default key "velocityOut" (VNumber 0) in
  (* Check data types of keyframe parameters *)
  checkTypes [
    (keyTime, TypeName "number");
    (keyValue, TypeNames ["number"; "array"]);
    (easeIn, TypeName "number");
    (easeOut, TypeName "number");
    (velocityIn, TypeName "number");
    (velocityOut, TypeName "number")
  ] ;;;
  (* Return validated keyframe *)
  Return {| Keys.keyTime := asNumber keyTime;
            Keys.keyValue := keyValue;
            Keys.easeIn := asNumber easeIn;
            Keys.easeOut := asNumber easeOut;
            Keys.velocityIn := asNumber velocityIn;
            Keys.velocityOut := asNumber velocityOut |}.

(** Validate and sort the given keys: the binding [keys], made once when
    the group is constructed.  The group is this list. *)
Definition AnimGroup (inputKeyframes : list object) : result (list Keyframe) :=
  keys <- Array_map validateKeyframe inputKeyframes ;;
  Return (Array_sort byKeyTime keys).

(** Performs animation on each element of array individually.  Nothing
    checks that the two arguments are arrays: [map] on a number is a call
    of [undefined], and indexing a number reads [undefined]. *)
Definition animateArrayFromProgress (startArray endArray : value)
  (progressAmount : float) : result value :=
  match endArray with
  | VArray _ endElts =>
      (* Array Subtraction *)
      let arrayDelta :=
        Array_mapi (fun item index =>
                      match startArray with
                      | VArray _ startElts => item - element startElts index
                      | _ => nan
                      end) endElts in
      (* Multiply difference by progress *)
      let deltaProgressed := map (fun item => item * progressAmount) arrayDelta in
      (* Add to current key and return *)
      match startArray with
      | VArray _ startElts =>
          Return (VArray None
            (Array_mapi (fun item index => item + element deltaProgressed index)
                        startElts))
      | _ => Throw NativeTypeError
      end
  | _ => Throw NativeTypeError
  end.

(** Returns the final animated value: the method [anim] of the group. *)
Definition animateBetweenKeys (keys : list Keyframe) (time : value) : result value :=
  time <- match time with
          | VUndefined => requiredArgumentError "time" ".anim inputs"
          | t => Return t
          end ;;
  checkTypes [(time, TypeName "number")] ;;;
  let time := asNumber time in
  let lastKeyNum := (List.length keys - 1)%nat in
  match nth_error keys lastKeyNum, nth_error keys 0 with
  | Some lastKey, Some firstKey =>
      (* If outside of all keys, return closest key value, skip animation *)
      if time <=? keyTime firstKey then Return (keyValue firstKey)
      else if keyTime lastKey <=? time then Return (keyValue lastKey)
      else
        (* Set current key to most recent keyframe *)
        let curKeyNum := getCurrentKeyNum keys time in
        match nth_error keys curKeyNum, nth_error keys (curKeyNum + 1) with
        | Some curKey, Some nextKey =>
            (* Check to see if no animation is required between current keys *)
            if strict_equal (Keyframe_get curKey "value") (Keyframe_get nextKey "value")
            then Return (Keyframe_get curKey "value")
            else
              (* Create easing spline based on current and next key *)
              easingCurve <- Easing.bezier h
                               (easeOut curKey / 100) (velocityOut curKey / 100)
                               (1 - easeIn nextKey / 100)
                               (1 - velocityIn nextKey / 100) ;;
              (* Delta calculations *)
              let deltaT := keyTime nextKey - keyTime curKey in
              (* Create incrementing time value that is zero at start
                 keyframe time *)
              let movedTime := Math_max (time - keyTime curKey) 0 in
              (* Normalize time input to maximum of one and to correct speed *)
              let timeInput := Math_min 1 (movedTime / deltaT) in
              (* Get progress value according to easing spline *)
              let progress := easingCurve timeInput in
              (* Return animation according to whether values are an array *)
              if Array_isArray (keyValue curKey) || Array_isArray (keyValue nextKey)
              then animateArrayFromProgress (keyValue curKey) (keyValue nextKey)
                     progress
              else Return (VNumber
                     (animateValueFromProgress (asNumber (keyValue curKey))
                        (asNumber (keyValue nextKey)) progress))
        | _, _ =>
            (* [keys[curKeyNum + 1]] is [undefined]: reading a property of it
               throws *)
            Throw NativeTypeError
        end
  | _, _ =>
      (* no keyframe at all: [keys[0]] is [undefined] *)
      Throw NativeTypeError
  end.

Definition anim : list Keyframe -> value -> result value := animateBetweenKeys.

End WithHost.

End AnimGroup.

(** * The vocabulary of the properties *)

Import JS Keys.

Local Open Scope js_scope.

(** A handle position outside [[0, 1]]: below 0, above 1, or not a number
    at all. *)
Definition outsideUnitInterval (x : float) : bool :=
  (x <? 0) || (1 <? x) || is_nan x.

(** A keyframe the scan walks past: [time >= key.keyTime]. *)
Definition reached (time : float) (key : Keyframe) : Prop :=
  (keyTime key <=? time) = true.

(** The canonical sequence is ordered by [keyTime], ascending: every
    keyframe is at or before every later one. *)
Definition notAfter (a b : Keyframe) : Prop := (keyTime a <=? keyTime b) = true.

Definition ascending (keys : list Keyframe) : Prop := StronglySorted notAfter keys.

(** One of the two values is an array and the other a number. *)
Definition arrayAndNumber (a b : value) : Prop :=
  (Array_isArray a = true /\ typeof_number b = true) \/
  (typeof_number a = true /\ Array_isArray b = true).

(** The names [validateKeyframe] of the one-shot form reports: the own
    property names of the descriptor outside the six it knows, in property
    order. *)
Definition unknownNames (key : object) : list string :=
  EKeys.getOwnPropertyNames (EKeys.nonValidKeyProps key).

(** The descriptor without the properties [validateKeyframe] does not
    know. *)
Definition validOnly (key : object) : object :=
  filter (fun p => existsb (String.eqb (fst p)) EKeys.validKeyProps) key.

(** The hint appended for a property literally named [tried]. *)
Definition didYouMean (names : list string) (tried suggestion : string) : string :=
  if EKeys.includes names tried
  then ". Did you mean " ++ dquote ++ suggestion ++ dquote ++ "?"
  else "".

(** The fields of a descriptor as validation reads them, held by a
    validated keyframe. *)
Definition holds (key : object) (k : Keyframe) : Prop :=
  get key "keyTime" = VNumber (keyTime k) /\
  get key "keyValue" = keyValue k /\
  (typeof_number (keyValue k) = true \/ Array_isArray (keyValue k) = true) /\
  get_default key "easeIn" (VNumber 33) = VNumber (easeIn k) /\
  get_default key "easeOut" (VNumber 33) = VNumber (easeOut k) /\
  get_default key "velocityIn" (VNumber 0) = VNumber (velocityIn k) /\
  get_default key "velocityOut" (VNumber 0) = VNumber (velocityOut k).

(** [AnimGroup(inputKeyframes).anim(time)] *)
Definition groupQuery (h : Host) (inputKeyframes : list object) (time : value)
  : result value :=
  keys <- AnimGroup.AnimGroup h inputKeyframes ;;
  AnimGroup.anim h keys time.

(** [eKeys.animate(inputKeyframes, { inputTime, interpolator })] *)
Definition oneShot (h : Host) (inputKeyframes : list object) (time : float)
  (interpolator : option EKeys.interpolatorFn) : result value :=
  EKeys.animate h inputKeyframes
    (Some {| EKeys.inputTime := VNumber time; EKeys.interpolator := interpolator |}).

(** A number that is not [NaN]: it is [===] to itself. *)
Definition isNumeric (x : float) : Prop := (x =? x) = true.

(** An optional numeric field of a descriptor: absent, or a number. *)
Definition numberOrAbsent (v : value) : Prop :=
  v = VUndefined \/ typeof_number v = true.

(** The value of a key: a number or an array. *)
Definition numberOrArray (v : value) : Prop :=
  typeof_number v = true \/ Array_isArray v = true.

(** The descriptors that validation lets through, unknown properties
    aside: [keyTime] is a number, [keyValue] a number or an array, and each
    of the four ease fields is absent or a number. *)
Definition wellTyped (key : object) : Prop :=
  typeof_number (get key "keyTime") = true /\
  numberOrArray (get key "keyValue") /\
  numberOrAbsent (get key "easeIn") /\
  numberOrAbsent (get key "easeOut") /\
  numberOrAbsent (get key "velocityIn") /\
  numberOrAbsent (get key "velocityOut").

(** The keyframe that a well-typed descriptor denotes: its own values, with
    33, 33, 0, 0 for the ease fields it leaves out. *)
Definition keyframeOf (key : object) : Keyframe :=
  {| keyTime := asNumber (get key "keyTime");
     keyValue := get key "keyValue";
     easeIn := asNumber (get_default key "easeIn" (VNumber 33));
     easeOut := asNumber (get_default key "easeOut" (VNumber 33));
     velocityIn := asNumber (get_default key "velocityIn" (VNumber 0));
     velocityOut := asNumber (get_default key "velocityOut" (VNumber 0)) |}.

(** The scalar rule of interpolation, on a pair of a start and an end. *)
Definition lerp (progress : float) (ends : float * float) : float :=
  fst ends + (snd ends - fst ends) * progress.

(** ** The inputs of the specification's examples *)

Module Examples.

Definition descriptor (keyTime keyValue : value) : object :=
  [("keyTime", keyTime); ("keyValue", keyValue)].

(** A descriptor whose handles make the easing the identity: ease and
    velocity equal on each side. *)
Definition diagonal (keyTime keyValue : value) : object :=
  [("keyTime", keyTime); ("keyValue", keyValue);
   ("easeIn", VNumber 33); ("easeOut", VNumber 33);
   ("velocityIn", VNumber 33); ("velocityOut", VNumber 33)].

(** The validated form of [descriptor (VNumber t) v]. *)
Definition validated (t : float) (v : value) : Keyframe :=
  {| keyTime := t; keyValue := v;
     easeIn := 33; easeOut := 33; velocityIn := 0; velocityOut := 0 |}.

(** [{keyTime: 0, keyValue: 0}, {keyTime: 10, keyValue: 100}] *)
Definition zeroToHundred : list object :=
  [descriptor (VNumber 0) (VNumber 0); descriptor (VNumber 10) (VNumber 100)].

Definition zeroToHundredDiagonal : list object :=
  [diagonal (VNumber 0) (VNumber 0); diagonal (VNumber 10) (VNumber 100)].

(** Two keyframes at the same time. *)
Definition tied : list object :=
  [descriptor (VNumber 0) (VNumber 1); descriptor (VNumber 0) (VNumber 2)].

(** Two interior keyframes at the same time. *)
Definition tiedInside : list object :=
  [descriptor (VNumber 0) (VNumber 0); descriptor (VNumber 5) (VNumber 1);
   descriptor (VNumber 5) (VNumber 2); descriptor (VNumber 10) (VNumber 3)].

(** [keyValue: [0, 0]] then [keyValue: [0, 0, 0]] *)
Definition twoThenThree : list object :=
  [descriptor (VNumber 0) (VArray None [0; 0]);
   descriptor (VNumber 10) (VArray None [0; 0; 0])].

(** An array then a number. *)
Definition arrayThenNumber : list object :=
  [descriptor (VNumber 0) (VArray None [0; 0]); descriptor (VNumber 10) (VNumber 3)].

(** The same two inputs with an outgoing ease of 150 percent on the first
    keyframe. *)
Definition twoThenThreeOvershoot : list object :=
  [("easeOut", VNumber 150) :: descriptor (VNumber 0) (VArray None [0; 0]);
   descriptor (VNumber 10) (VArray None [0; 0; 0])].

Definition arrayThenNumberOvershoot : list object :=
  [("easeOut", VNumber 150) :: descriptor (VNumber 0) (VArray None [0; 0]);
   descriptor (VNumber 10) (VNumber 3)].

(** A descriptor with a property named [time] next to the two required
    ones. *)
Definition withTime : object :=
  [("keyTime", VNumber 0); ("keyValue", VNumber 0); ("time", VNumber 1)].

(** [{keyValue: 5}] *)
Definition onlyValue : object := [("keyValue", VNumber 5)].


(** A validated keyframe with an outgoing ease of 150 percent, for which
    [bezier] throws. *)
Definition overshooting (t : float) (v : value) : Keyframe :=
  {| keyTime := t; keyValue := v;
     easeIn := 33; easeOut := 150; velocityIn := 0; velocityOut := 0 |}.

(** [{keyTime: 0}] *)
Definition onlyTime : object := [("keyTime", VNumber 0)].

(** [{keyTime: '0', keyValue: 5}] *)
Definition textTime : object := [("keyTime", VString "0"); ("keyValue", VNumber 5)].


(** Three descriptors, the last one first. *)
Definition outOfOrder : list object :=
  [descriptor (VNumber 10) (VNumber 100); descriptor (VNumber 0) (VNumber 0);
   descriptor (VNumber 5) (VNumber 50)].

End Examples.

(** * Properties *)

(** ** The order of binary64 numbers

    What [<], [<=] and [===] on numbers satisfy, read off the comparison of
    the IEEE 754 values they denote.  [NaN] compares with nothing, so the
    order is partial. *)

Module FloatOrder.

Ltac split_floats :=
  repeat match goal with
         | x : spec_float |- _ => destruct x as [[|]|[|]| |[|] ? ?]
         end.

Ltac compare_cases :=
  change (Pos.compare_cont Eq) with Pos.compare in *;
  repeat match goal with
         | H : context [Z.compare ?x ?y] |- _ => destruct (Z.compare_spec x y)
         | |- context [Z.compare ?x ?y] => destruct (Z.compare_spec x y)
         | H : context [Pos.compare ?x ?y] |- _ => destruct (Pos.compare_spec x y)
         | |- context [Pos.compare ?x ?y] => destruct (Pos.compare_spec x y)
         end;
  simpl in *; subst; try discriminate; try reflexivity; try lia.

Ltac by_cases :=
  unfold SFleb in *;
  split_floats; simpl in *; try discriminate; try reflexivity; compare_cases.

Lemma SFcompare_Lt_Gt (a b : spec_float) :
  SFcompare a b = Some Lt -> SFcompare b a = Some Gt.
Proof. intros H. by_cases. Qed.

Lemma SFcompare_Eq_left (a b c : spec_float) :
  SFcompare b c = Some Eq -> SFcompare b a = SFcompare c a.
Proof. intros H. by_cases. Qed.

Lemma SFleb_ltb_trans (a b c : spec_float) :
  SFleb a b = true -> SFcompare b c = Some Lt -> SFcompare a c = Some Lt.
Proof. intros H1 H2. by_cases. Qed.

Lemma SFltb_leb_trans (a b c : spec_float) :
  SFcompare a b = Some Lt -> SFleb b c = true -> SFcompare a c = Some Lt.
Proof. intros H1 H2. by_cases. Qed.

Lemma SFleb_trans (a b c : spec_float) :
  SFleb a b = true -> SFleb b c = true -> SFleb a c = true.
Proof. intros H1 H2. by_cases. Qed.

Lemma SFcompare_refl_right (a b : spec_float) :
  SFcompare a b <> None -> SFcompare b b = Some Eq.
Proof.
  intros H. split_floats; simpl in *; try congruence;
    rewrite ?Z.compare_refl, ?Pos.compare_cont_refl; reflexivity.
Qed.

Lemma SFcompare_refl_left (a b : spec_float) :
  SFcompare a b <> None -> SFcompare a a = Some Eq.
Proof.
  intros H. split_floats; simpl in *; try congruence;
    rewrite ?Z.compare_refl, ?Pos.compare_cont_refl; reflexivity.
Qed.

(** The same facts on the primitive operations. *)

Lemma ltb_Lt (a b : float) :
  (a <? b) = true <-> SFcompare (Prim2SF a) (Prim2SF b) = Some Lt.
Proof.
  rewrite FloatAxioms.ltb_spec. unfold SFltb.
  destruct (SFcompare _ _) as [[ | | ]|]; split; congruence.
Qed.

Lemma eqb_Eq (a b : float) :
  (a =? b) = true <-> SFcompare (Prim2SF a) (Prim2SF b) = Some Eq.
Proof.
  rewrite FloatAxioms.eqb_spec. unfold SFeqb.
  destruct (SFcompare _ _) as [[ | | ]|]; split; congruence.
Qed.

Lemma leb_compared (a b : float) :
  (a <=? b) = true -> SFcompare (Prim2SF a) (Prim2SF b) <> None.
Proof.
  rewrite FloatAxioms.leb_spec. unfold SFleb. intros H E. rewrite E in H.
  discriminate.
Qed.

(** [a < b] excludes [b <= a] and [b === a], and gives [a <= b]. *)
Lemma ltb_not_leb (a b : float) : (a <? b) = true -> (b <=? a) = false.
Proof.
  intros H. apply ltb_Lt in H. rewrite FloatAxioms.leb_spec. unfold SFleb.
  rewrite (SFcompare_Lt_Gt _ _ H). reflexivity.
Qed.

Lemma ltb_not_eqb (a b : float) : (a <? b) = true -> (b =? a) = false.
Proof.
  intros H. apply ltb_Lt in H. rewrite FloatAxioms.eqb_spec. unfold SFeqb.
  rewrite (SFcompare_Lt_Gt _ _ H). reflexivity.
Qed.

Lemma ltb_leb (a b : float) : (a <? b) = true -> (a <=? b) = true.
Proof.
  intros H. apply ltb_Lt in H. rewrite FloatAxioms.leb_spec. unfold SFleb.
  rewrite H. reflexivity.
Qed.

(** Transitivity. *)
Lemma leb_trans (a b c : float) :
  (a <=? b) = true -> (b <=? c) = true -> (a <=? c) = true.
Proof. rewrite !FloatAxioms.leb_spec. apply SFleb_trans. Qed.

Lemma leb_ltb_trans (a b c : float) :
  (a <=? b) = true -> (b <? c) = true -> (a <? c) = true.
Proof.
  rewrite FloatAxioms.leb_spec. intros H1 H2. apply ltb_Lt in H2. apply ltb_Lt.
  exact (SFleb_ltb_trans _ _ _ H1 H2).
Qed.

Lemma ltb_leb_trans (a b c : float) :
  (a <? b) = true -> (b <=? c) = true -> (a <? c) = true.
Proof.
  rewrite FloatAxioms.leb_spec. intros H1 H2. apply ltb_Lt in H1. apply ltb_Lt.
  exact (SFltb_leb_trans _ _ _ H1 H2).
Qed.

(** A number that compares with something is not [NaN]: it is [<=] and
    [===] to itself. *)
Lemma leb_refl_left (a b : float) : (a <=? b) = true -> (a <=? a) = true.
Proof.
  intros H. apply leb_compared in H. rewrite FloatAxioms.leb_spec. unfold SFleb.
  rewrite (SFcompare_refl_left _ _ H). reflexivity.
Qed.

Lemma leb_eqb_refl (a b : float) : (a <=? b) = true -> (b =? b) = true.
Proof.
  intros H. apply leb_compared in H. apply eqb_Eq.
  exact (SFcompare_refl_right _ _ H).
Qed.

(** Numbers that are [===] are [<=] each other. *)
Lemma eqb_leb (a b : float) : (a =? b) = true -> (b <=? a) = true.
Proof.
  intros H. apply eqb_Eq in H. rewrite FloatAxioms.leb_spec. unfold SFleb.
  rewrite <- (SFcompare_Eq_left (Prim2SF a) _ _ H).
  rewrite (SFcompare_refl_left (Prim2SF a) (Prim2SF b)); [ reflexivity | congruence ].
Qed.


(** [NaN] and the rest. *)

Lemma SFcompare_self (a : spec_float) :
  a = S754_nan \/ SFcompare a a = Some Eq.
Proof.
  destruct a as [[|]|[|]| |[|] m e]; simpl; auto;
    rewrite Z.compare_refl, Pos.compare_cont_refl; auto.
Qed.

Lemma SFcompare_None (a b : spec_float) :
  SFcompare a b = None -> a = S754_nan \/ b = S754_nan.
Proof. destruct a as [[|]|[|]| |[|] ? ?], b as [[|]|[|]| |[|] ? ?]; simpl; auto; discriminate. Qed.

Lemma SFcompare_flip (a b : spec_float) :
  SFcompare a b = Some Gt -> SFcompare b a = Some Lt.
Proof. intros H. by_cases. Qed.

Lemma SFcompare_Eq_sym (a b : spec_float) :
  SFcompare a b = Some Eq -> SFcompare b a = Some Eq.
Proof. intros H. by_cases. Qed.

(** A number is [NaN] exactly when it is not [===] to itself. *)
Lemma eqb_refl_not_nan (a : float) : (a =? a) = true <-> Prim2SF a <> S754_nan.
Proof.
  split.
  - intros H E. apply eqb_Eq in H. rewrite E in H. discriminate.
  - intros H. apply eqb_Eq. destruct (SFcompare_self (Prim2SF a)); [ contradiction | assumption ].
Qed.

Lemma eqb_false_nan (a : float) : (a =? a) = false -> Prim2SF a = S754_nan.
Proof.
  intros H. destruct (SFcompare_self (Prim2SF a)) as [E | E]; [ exact E | ].
  apply eqb_Eq in E. congruence.
Qed.

(** [NaN] compares with nothing. *)
Lemma nan_leb (a b : float) :
  (a =? a) = false -> (a <=? b) = false /\ (b <=? a) = false.
Proof.
  intros H. apply eqb_false_nan in H.
  rewrite !FloatAxioms.leb_spec, H. unfold SFleb.
  destruct (Prim2SF b); simpl; auto.
Qed.

(** Two numbers that are not [NaN] compare one way or the other. *)
Lemma leb_total (a b : float) :
  (a =? a) = true -> (b =? b) = true -> (a <=? b) = true \/ (b <=? a) = true.
Proof.
  intros Ha Hb. apply eqb_refl_not_nan in Ha. apply eqb_refl_not_nan in Hb.
  rewrite !FloatAxioms.leb_spec. unfold SFleb.
  destruct (SFcompare (Prim2SF a) (Prim2SF b)) as [[ | | ] | ] eqn:E; auto.
  - right. rewrite (SFcompare_flip _ _ E). reflexivity.
  - apply SFcompare_None in E. tauto.
Qed.

(** Neither below nor above, and both numbers: [===]. *)
Lemma not_ltb_eqb (a b : float) :
  (a =? a) = true -> (b =? b) = true ->
  (a <? b) = false -> (b <? a) = false -> (a =? b) = true.
Proof.
  intros Ha Hb Hab Hba. apply eqb_refl_not_nan in Ha. apply eqb_refl_not_nan in Hb.
  rewrite FloatAxioms.ltb_spec in Hab, Hba. unfold SFltb in *.
  apply eqb_Eq.
  destruct (SFcompare (Prim2SF a) (Prim2SF b)) as [[ | | ] | ] eqn:E; auto.
  - discriminate.
  - rewrite (SFcompare_flip _ _ E) in Hba. discriminate.
  - apply SFcompare_None in E. tauto.
Qed.

Lemma eqb_leb_both (a b : float) :
  (a =? b) = true -> (a <=? b) = true /\ (b <=? a) = true.
Proof.
  intros H. split; [ | exact (eqb_leb _ _ H) ].
  apply eqb_Eq in H. rewrite FloatAxioms.leb_spec. unfold SFleb. rewrite H. reflexivity.
Qed.

(** The sign of a quotient. *)

Lemma binary_round_aux_sign (prec emax : Z) (s : bool) (m e : Z) (l : location) :
  let r := binary_round_aux prec emax s m e l in
  r = S754_nan \/ r = S754_zero s \/ r = S754_infinity s \/
  exists m' e', r = S754_finite s m' e'.
Proof.
  unfold binary_round_aux.
  destruct (shr_fexp prec emax m e l) as [mrs' e'].
  destruct (shr_fexp prec emax _ e' loc_Exact) as [mrs'' e''].
  destruct (shr_m mrs'') as [ | m' | m']; auto.
  destruct (Z.leb e'' (emax - prec)); eauto 6.
Qed.

Lemma SFdiv_nonneg (prec emax : Z) (x y : spec_float) :
  SFleb (S754_zero false) x = true ->
  SFltb (S754_zero false) y = true ->
  SFdiv prec emax x y = S754_nan \/
  SFleb (S754_zero false) (SFdiv prec emax x y) = true.
Proof.
  intros Hx Hy.
  destruct x as [sx | [|] | | [|] mx ex]; try discriminate;
    destruct y as [sy | [|] | | [|] my ey]; try discriminate;
    simpl; auto.
  destruct (SFdiv_core_binary prec emax (Zpos mx) ex (Zpos my) ey) as [[mz ez] lz].
  destruct (binary_round_aux_sign prec emax false mz ez lz)
    as [E | [E | [E | [m' [e' E]]]]]; rewrite E; auto.
Qed.

Lemma is_nan_true (x : float) : is_nan x = true <-> Prim2SF x = S754_nan.
Proof.
  unfold is_nan. split.
  - intros H. apply negb_true_iff in H. exact (eqb_false_nan _ H).
  - intros H. apply negb_true_iff. rewrite FloatAxioms.eqb_spec, H. reflexivity.
Qed.

Lemma is_nan_false (x : float) : is_nan x = false -> (x =? x) = true.
Proof. unfold is_nan. intros H. apply negb_false_iff in H. exact H. Qed.

(** A quotient of a number that is not negative by a positive number is
    [NaN] (as [Infinity / Infinity] is) or not negative. *)
Lemma div_nonneg (x y : float) :
  (0 <=? x) = true -> (0 <? y) = true ->
  is_nan (x / y) = true \/ (0 <=? x / y) = true.
Proof.
  rewrite FloatAxioms.leb_spec, FloatAxioms.ltb_spec. intros Hx Hy.
  rewrite is_nan_true, FloatAxioms.leb_spec, FloatAxioms.div_spec.
  change (Prim2SF 0) with (S754_zero false) in *.
  exact (SFdiv_nonneg _ _ _ _ Hx Hy).
Qed.

Lemma nan_div (y : float) : is_nan (nan / y) = true.
Proof.
  rewrite is_nan_true, FloatAxioms.div_spec.
  change (Prim2SF nan) with S754_nan. reflexivity.
Qed.

(** The sign of a difference.  The arithmetic of binary formats
    ([SpecFloat]) rounds a difference of two numbers of the format; what
    follows shows that rounding never takes a difference that is not zero
    to zero, so that the sign of [a - b] tells which of the two is the
    smaller. *)

Section Rounding.
Local Open Scope Z_scope.

Variables prec emax : Z.
Hypothesis prec_pos : 0 < prec.

Lemma digits2_pos_bounds (m : positive) :
  2 ^ (Zpos (digits2_pos m) - 1) <= Zpos m < 2 ^ Zpos (digits2_pos m).
Proof.
  induction m as [m IH | m IH | ]; simpl digits2_pos.
  - rewrite Pos2Z.inj_succ.
    replace (Z.succ (Zpos (digits2_pos m)) - 1) with (Z.succ (Zpos (digits2_pos m) - 1)) by lia.
    rewrite !Z.pow_succ_r by lia. lia.
  - rewrite Pos2Z.inj_succ.
    replace (Z.succ (Zpos (digits2_pos m)) - 1) with (Z.succ (Zpos (digits2_pos m) - 1)) by lia.
    rewrite !Z.pow_succ_r by lia. lia.
  - simpl. lia.
Qed.

Lemma Zdigits2_pos (m : Z) : 0 <= m -> (0 < Zdigits2 m <-> 0 < m).
Proof. destruct m; simpl; lia. Qed.

Lemma Zdigits2_nonneg (m : Z) : 0 <= Zdigits2 m.
Proof. destruct m; simpl; lia. Qed.

Lemma shr_1_digits (mrs : shr_record) :
  0 <= shr_m mrs ->
  0 <= shr_m (shr_1 mrs) /\
  Zdigits2 (shr_m (shr_1 mrs)) = Z.max 0 (Zdigits2 (shr_m mrs) - 1).
Proof.
  destruct mrs as [m r s]. simpl. intros H.
  destruct m as [ | [p | p | ] | p ]; cbn [shr_m shr_1 Zdigits2 digits2_pos]; try lia.
  all: try (split; [ lia | rewrite ?Pos2Z.inj_succ; lia ]).
  all: match goal with |- ?G => idtac G end.
Qed.

Lemma iter_shr_1_digits (p : positive) (mrs : shr_record) :
  0 <= shr_m mrs ->
  0 <= shr_m (SpecFloat.iter_pos shr_1 p mrs) /\
  Zdigits2 (shr_m (SpecFloat.iter_pos shr_1 p mrs)) = Z.max 0 (Zdigits2 (shr_m mrs) - Zpos p).
Proof.
  revert mrs. induction p as [p IH | p IH | ]; intros mrs H; simpl SpecFloat.iter_pos.
  - destruct (shr_1_digits mrs H) as [H1 E1].
    destruct (IH _ H1) as [H2 E2]. destruct (IH _ H2) as [H3 E3].
    split; [ exact H3 | ]. rewrite E3, E2, E1. lia.
  - destruct (IH _ H) as [H2 E2]. destruct (IH _ H2) as [H3 E3].
    split; [ exact H3 | ]. rewrite E3, E2. lia.
  - exact (shr_1_digits mrs H).
Qed.

(** Shifting a positive mantissa of a number whose exponent is not below
    [emin] to its format leaves it positive. *)
Lemma shr_fexp_pos (m e : Z) (l : location) :
  0 < m -> SpecFloat.emin prec emax <= e ->
  0 < shr_m (fst (shr_fexp prec emax m e l)) /\
  SpecFloat.emin prec emax <= snd (shr_fexp prec emax m e l).
Proof.
  intros Hm He. unfold shr_fexp, shr, SpecFloat.fexp.
  pose proof (proj2 (Zdigits2_pos m ltac:(lia)) Hm) as Hd.
  destruct (Z.max (Zdigits2 m + e - prec) (SpecFloat.emin prec emax) - e) as [ | p | p ] eqn:E; simpl.
  - destruct l as [ | [ | | ] ]; simpl; lia.
  - set (mrs := shr_record_of_loc m l).
    assert (Hmrs : shr_m mrs = m) by (unfold mrs; destruct l as [ | [ | | ] ]; reflexivity).
    destruct (iter_shr_1_digits p mrs ltac:(lia)) as [H1 E1].
    rewrite Hmrs in E1. split; [ | lia ].
    apply Zdigits2_pos; [ exact H1 | ]. rewrite E1. lia.
  - destruct l as [ | [ | | ] ]; simpl; lia.
Qed.

Lemma round_nearest_even_pos (m : Z) (l : location) :
  0 < m -> 0 < round_nearest_even m l.
Proof.
  intros H. unfold round_nearest_even.
  destruct l as [ | [ | | ] ]; try lia; destruct (Z.even m); lia.
Qed.

Lemma binary_round_aux_pos (s : bool) (m e : Z) (l : location) :
  0 < m -> SpecFloat.emin prec emax <= e ->
  binary_round_aux prec emax s m e l = S754_infinity s \/
  exists m' e', binary_round_aux prec emax s m e l = S754_finite s m' e'.
Proof.
  intros Hm He. unfold binary_round_aux.
  destruct (shr_fexp_pos m e l Hm He) as [H1 H2].
  destruct (shr_fexp prec emax m e l) as [mrs' e']. simpl in H1, H2.
  pose proof (round_nearest_even_pos _ (loc_of_shr_record mrs') H1) as H3.
  destruct (shr_fexp_pos _ e' loc_Exact H3 H2) as [H4 H5].
  destruct (shr_fexp prec emax _ e' loc_Exact) as [mrs'' e'']. simpl in H4, H5.
  destruct (shr_m mrs'') as [ | m' | m']; try lia.
  destruct (Z.leb e'' (emax - prec)); eauto.
Qed.

Lemma shl_align_fst (m : positive) (e e' : Z) :
  e' <= e -> Zpos (fst (shl_align m e e')) = Zpos m * 2 ^ (e - e').
Proof.
  intros H. unfold shl_align.
  destruct (e' - e) as [ | p | p ] eqn:E; cbn [fst].
  - replace (e - e') with 0 by lia. rewrite Z.pow_0_r. lia.
  - lia.
  - replace (e - e') with (Zpos p) by lia.
    change (Pos.iter xO m p) with (shift_pos p m).
    rewrite shift_pos_correct. change (Z.pow_pos 2 p) with (2 ^ Zpos p). lia.
Qed.

Lemma binary_round_pos (s : bool) (m : positive) (e : Z) :
  SpecFloat.emin prec emax <= e ->
  binary_round prec emax s m e = S754_infinity s \/
  exists m' e', binary_round prec emax s m e = S754_finite s m' e'.
Proof.
  intros He. unfold binary_round.
  destruct (shl_align m e _) as [mz ez] eqn:E.
  apply binary_round_aux_pos; [ lia | ].
  unfold shl_align, SpecFloat.fexp in E.
  destruct (Z.max _ _ - e) as [ | p | p ]; inversion E; subst; lia.
Qed.

Lemma canonical_mantissa_digits (m : positive) (e : Z) :
  canonical_mantissa prec emax m e = true ->
  SpecFloat.emin prec emax <= e /\
  Zpos (digits2_pos m) <= prec /\
  (SpecFloat.emin prec emax < e -> Zpos (digits2_pos m) = prec).
Proof.
  unfold canonical_mantissa, SpecFloat.fexp. intros H.
  apply Z.eqb_eq in H. lia.
Qed.

(** Two mantissas in their format compare as their exponents do when these
    differ. *)
Lemma canonical_mantissa_lt (mx my : positive) (ex ey : Z) :
  canonical_mantissa prec emax mx ex = true ->
  canonical_mantissa prec emax my ey = true ->
  ex < ey -> Zpos mx < Zpos my * 2 ^ (ey - ex).
Proof.
  intros Hx Hy Hlt.
  destruct (canonical_mantissa_digits _ _ Hx) as [Hex [Hdx _]].
  destruct (canonical_mantissa_digits _ _ Hy) as [_ [_ Hdy]].
  specialize (Hdy ltac:(lia)).
  pose proof (digits2_pos_bounds mx) as [_ Bx].
  pose proof (digits2_pos_bounds my) as [By _].
  rewrite Hdy in By.
  assert (P1 : 2 ^ Zpos (digits2_pos mx) <= 2 ^ prec)
    by (apply Z.pow_le_mono_r; lia).
  assert (P2 : 2 ^ prec = 2 * 2 ^ (prec - 1)).
  { replace prec with (Z.succ (prec - 1)) at 1 by lia.
    apply Z.pow_succ_r. lia. }
  assert (P3 : 2 ^ 1 <= 2 ^ (ey - ex)) by (apply Z.pow_le_mono_r; lia).
  change (2 ^ 1) with 2 in P3.
  assert (P4 : 0 < 2 ^ (prec - 1)) by (apply Z.pow_pos_nonneg; lia).
  nia.
Qed.

Lemma binary_normalize_sign (m e : Z) :
  SpecFloat.emin prec emax <= e ->
  SFltb (S754_zero false) (binary_normalize prec emax m e false) = (0 <? m).
Proof.
  intros He. unfold binary_normalize.
  destruct m as [ | m | m ]; [ reflexivity | | ].
  - destruct (binary_round_pos false m e He) as [E | [m' [e' E]]]; rewrite E; reflexivity.
  - destruct (binary_round_pos true m e He) as [E | [m' [e' E]]]; rewrite E; reflexivity.
Qed.

(** A difference is positive exactly when what is taken away is the
    smaller. *)
Lemma SFsub_positive (x y : spec_float) :
  SpecFloat.valid_binary prec emax x = true ->
  SpecFloat.valid_binary prec emax y = true ->
  SFltb (S754_zero false) (SFsub prec emax x y) = SFltb y x.
Proof.
  intros Vx Vy.
  destruct x as [sx | sx | | sx mx ex], y as [sy | sy | | sy my ey];
    try (destruct sx); try (destruct sy); try reflexivity.
  all: unfold SFsub; rewrite binary_normalize_sign.
  all: simpl in Vx, Vy; unfold bounded in Vx, Vy;
    apply andb_true_iff in Vx, Vy; destruct Vx as [Vx _], Vy as [Vy _].
  all: try (destruct (canonical_mantissa_digits _ _ Vx) as [? _];
            destruct (canonical_mantissa_digits _ _ Vy) as [? _]; lia).
  all: rewrite !shl_align_fst by lia.
  all: unfold SFltb, SFcompare, cond_Zopp.
  all: pose proof (canonical_mantissa_lt _ _ _ _ Vx Vy) as Lxy;
    pose proof (canonical_mantissa_lt _ _ _ _ Vy Vx) as Lyx.
  all: try (destruct (Z.ltb_spec 0 (Z.pos mx * 2 ^ (ex - Z.min ex ey) - - (Z.pos my * 2 ^ (ey - Z.min ex ey)))); [ reflexivity | ];
            assert (0 < 2 ^ (ex - Z.min ex ey)) by (apply Z.pow_pos_nonneg; lia);
            assert (0 < 2 ^ (ey - Z.min ex ey)) by (apply Z.pow_pos_nonneg; lia); nia).
  all: try (destruct (Z.ltb_spec 0 (- (Z.pos mx * 2 ^ (ex - Z.min ex ey)) - Z.pos my * 2 ^ (ey - Z.min ex ey))); [ | reflexivity ];
            assert (0 < 2 ^ (ex - Z.min ex ey)) by (apply Z.pow_pos_nonneg; lia);
            assert (0 < 2 ^ (ey - Z.min ex ey)) by (apply Z.pow_pos_nonneg; lia); nia).
  all: change (Pos.compare_cont Eq my mx) with (Pos.compare my mx);
    destruct (Z.compare_spec ey ex) as [E | E | E];
    [ subst ey; rewrite Z.min_id, Z.sub_diag, Z.pow_0_r, !Z.mul_1_r;
      destruct (Pos.compare_spec my mx) as [E' | E' | E']
    | specialize (Lyx E); rewrite Z.min_r, Z.sub_diag, Z.pow_0_r, Z.mul_1_r by lia
    | specialize (Lxy E); rewrite Z.min_l, Z.sub_diag, Z.pow_0_r, Z.mul_1_r by lia ];
    cbv [CompOpp]; cbv iota;
    first [ apply Z.ltb_lt | apply Z.ltb_ge ]; lia.
Qed.

End Rounding.

Lemma sub_positive (a b : float) : (0 <? a - b) = (b <? a).
Proof.
  rewrite !FloatAxioms.ltb_spec, FloatAxioms.sub_spec.
  change (Prim2SF 0) with (S754_zero false).
  apply SFsub_positive; [ reflexivity | apply FloatAxioms.Prim2SF_valid .. ].
Qed.

(** Of two numbers, the one that is not below the other is at or above
    it. *)
Lemma not_ltb_leb (a b : float) :
  (a =? a) = true -> (b =? b) = true -> (a <? b) = false -> (b <=? a) = true.
Proof.
  intros Ha Hb Hab. apply eqb_refl_not_nan in Ha. apply eqb_refl_not_nan in Hb.
  rewrite FloatAxioms.ltb_spec in Hab. rewrite FloatAxioms.leb_spec.
  unfold SFltb in Hab. unfold SFleb.
  destruct (SFcompare (Prim2SF a) (Prim2SF b)) as [[ | | ] | ] eqn:E.
  - rewrite (SFcompare_Eq_sym _ _ E). reflexivity.
  - discriminate.
  - rewrite (SFcompare_flip _ _ E). reflexivity.
  - apply SFcompare_None in E. tauto.
Qed.
End FloatOrder.

Import FloatOrder.

(** ** What a validated keyframe holds *)

Section ValidatedKeyframe.

Lemma bind_Return {A B : Type} (m : result A) (k : A -> result B) (b : B) :
  bind m k = Return b -> exists a, m = Return a /\ k a = Return b.
Proof. destruct m as [a | e]; simpl; intros H; [ exists a; auto | discriminate ]. Qed.

(** Only a number has the type ['number']. *)
Lemma isValidType_number (v : value) :
  isValidType (getType v) (TypeName "number") = true -> v = VNumber (asNumber v).
Proof. destruct v; simpl; intros H; try discriminate; reflexivity. Qed.

(** Only a number or an array has one of the types [['number', 'array']]. *)
Lemma isValidType_number_or_array (v : value) :
  isValidType (getType v) (TypeNames ["number"; "array"]) = true ->
  typeof_number v = true \/ Array_isArray v = true.
Proof. destruct v; simpl; intros H; try discriminate; auto. Qed.

Lemma EKeys_checkTypes_Return (checkingArray : list (string * value * expectedType)) :
  EKeys.checkTypes checkingArray = Return tt ->
  Forall (fun c => isValidType (getType (snd (fst c))) (snd c) = true) checkingArray.
Proof.
  induction checkingArray as [ | [[name v] expected] rest IH]; simpl; intros H.
  - constructor.
  - destruct (isValidType (getType v) expected) eqn:E; simpl in H; [ | discriminate ].
    constructor; [ exact E | exact (IH H) ].
Qed.

Lemma AnimGroup_checkTypes_Return (h : Host)
  (checkingArray : list (value * expectedType)) :
  AnimGroup.checkTypes h checkingArray = Return tt ->
  Forall (fun c => isValidType (getType (fst c)) (snd c) = true) checkingArray.
Proof.
  induction checkingArray as [ | [v expected] rest IH]; simpl; intros H.
  - constructor.
  - destruct (isValidType (getType v) expected) eqn:E; simpl in H; [ | discriminate ].
    constructor; [ exact E | exact (IH H) ].
Qed.

Ltac read_checks H :=
  repeat match type of H with
         | Forall _ (_ :: _) =>
             let Hc := fresh "Hcheck" in
             let Hr := fresh "Hrest" in
             inversion H as [ | ? ? Hc Hr]; subst; clear H; rename Hr into H;
             cbn [fst snd] in Hc
         end.

(** A keyframe that the one-shot form validates carries the values of its
    descriptor: the five numeric fields are numbers, read as they are, and
    [keyValue] is a number or an array. *)
Lemma EKeys_validateKeyframe_holds (key : object) (index : nat) (k : Keyframe) :
  EKeys.validateKeyframe key index = Return k -> holds key k.
Proof.
  unfold EKeys.validateKeyframe.
  destruct (negb _); [ discriminate | ].
  intros H.
  apply bind_Return in H. destruct H as [_ [_ H]].
  apply bind_Return in H. destruct H as [_ [_ H]].
  apply bind_Return in H. destruct H as [[] [Hchecks H]].
  injection H as <-. apply EKeys_checkTypes_Return in Hchecks.
  read_checks Hchecks. unfold holds.
  cbn [keyTime keyValue easeIn easeOut velocityIn velocityOut].
  repeat split; auto using isValidType_number, isValidType_number_or_array.
Qed.

(** The same for the group form. *)
Lemma AnimGroup_validateKeyframe_holds (h : Host) (key : object) (index : nat)
  (k : Keyframe) :
  AnimGroup.validateKeyframe h key index = Return k -> holds key k.
Proof.
  unfold AnimGroup.validateKeyframe, AnimGroup.get_required.
  intros H.
  apply bind_Return in H. destruct H as [time [Htime H]].
  apply bind_Return in H. destruct H as [val [Hvalue H]].
  apply bind_Return in H. destruct H as [[] [Hchecks H]].
  injection H as <-. apply AnimGroup_checkTypes_Return in Hchecks.
  read_checks Hchecks. unfold holds.
  cbn [keyTime keyValue easeIn easeOut velocityIn velocityOut].
  assert (Et : get key "keyTime" = time)
    by (destruct (get key "keyTime"); try discriminate; congruence).
  assert (Ev : get key "keyValue" = val)
    by (destruct (get key "keyValue"); try discriminate; congruence).
  rewrite Et, Ev.
  repeat split; auto using isValidType_number, isValidType_number_or_array.
Qed.

(** What the one-shot form validates, the group form validates to the same
    keyframe: the two differ only in what they reject. *)
Lemma validateKeyframe_agree (h : Host) (key : object) (index : nat) (k : Keyframe) :
  EKeys.validateKeyframe key index = Return k ->
  AnimGroup.validateKeyframe h key index = Return k.
Proof.
  intros H. destruct (EKeys_validateKeyframe_holds _ _ _ H)
    as [Ht [Hv [Hshape [Hei [Heo [Hvi Hvo]]]]]].
  unfold AnimGroup.validateKeyframe, AnimGroup.get_required.
  rewrite Ht, Hv, Hei, Heo, Hvi, Hvo. cbn [bind].
  destruct k as [t v ei eo vi vo]. cbn [keyValue] in *.
  destruct Hshape as [Hs | Hs]; destruct v; try discriminate; reflexivity.
Qed.

End ValidatedKeyframe.

(** ** Validation of a keyframe descriptor *)

Section Validation.

Lemma includes_In (names : list string) (name : string) :
  EKeys.includes names name = true <-> In name names.
Proof.
  unfold EKeys.includes. rewrite existsb_exists. split.
  - intros [x [Hin Heq]]. apply String.eqb_eq in Heq. subst. exact Hin.
  - intros Hin. exists name. split; [ exact Hin | apply String.eqb_refl ].
Qed.

Lemma unknownNames_In (key : object) (name : string) :
  In name (unknownNames key) <->
  In name (EKeys.getOwnPropertyNames key) /\ ~ In name EKeys.validKeyProps.
Proof.
  unfold unknownNames, EKeys.getOwnPropertyNames, EKeys.nonValidKeyProps.
  rewrite !in_map_iff. split.
  - intros [p [Hname Hin]]. apply filter_In in Hin. destruct Hin as [Hin Hunknown].
    split; [ exists p; auto | ].
    intros Hvalid. apply includes_In in Hvalid. subst name.
    unfold EKeys.includes in Hvalid. rewrite Hvalid in Hunknown. discriminate.
  - intros [[p [Hname Hin]] Hunknown]. exists p. split; [ exact Hname | ].
    apply filter_In. split; [ exact Hin | ].
    apply negb_true_iff.
    destruct (existsb (String.eqb (fst p)) EKeys.validKeyProps) eqn:E;
      [ | reflexivity ].
    exfalso. apply Hunknown. apply includes_In. subst name. exact E.
Qed.

Lemma get_validOnly (key : object) (name : string) :
  In name EKeys.validKeyProps -> get (validOnly key) name = get key name.
Proof.
  intros Hvalid. apply includes_In in Hvalid. unfold EKeys.includes in Hvalid.
  unfold validOnly.
  induction key as [ | [k v] key IH]; cbn [get filter fst]; [ reflexivity | ].
  destruct (String.eqb k name) eqn:E.
  - apply String.eqb_eq in E. subst k. rewrite Hvalid.
    cbn [get]. rewrite String.eqb_refl. reflexivity.
  - destruct (existsb (String.eqb k) EKeys.validKeyProps); cbn [get];
      [ rewrite E | ]; exact IH.
Qed.

(** C7, as the code has it.  In the one-shot form, a descriptor that carries
    a property outside [keyTime], [keyValue], [easeIn], [easeOut],
    [velocityIn], [velocityOut] is rejected with the error that gives the
    index and lists the unknown names, with a hint appended when one of them
    is [time] (suggesting [keyTime]) and when one is [value] (suggesting
    [keyValue]).  The group form has no such check: it validates the
    descriptor as if the unknown properties were not there. *)
Theorem unknown_field_rejected (key : object) (index : nat) :
  (exists name, In name (EKeys.getOwnPropertyNames key) /\
                ~ In name EKeys.validKeyProps) ->
  EKeys.validateKeyframe key index =
    Throw (Error
      ("Unexpected property on keyframe " ++ String_of_nat index ++ ": " ++
       String.concat ", " (unknownNames key) ++
       didYouMean (unknownNames key) "time" "keyTime" ++
       didYouMean (unknownNames key) "value" "keyValue")) /\
  (forall h : Host,
     AnimGroup.validateKeyframe h key index =
     AnimGroup.validateKeyframe h (validOnly key) index).
Proof.
  intros [name Hname]. split.
  - apply unknownNames_In in Hname.
    unfold EKeys.validateKeyframe. fold (unknownNames key).
    destruct (unknownNames key) as [ | n names] eqn:E; [ destruct Hname | ].
    reflexivity.
  - intros h. unfold AnimGroup.validateKeyframe, AnimGroup.get_required, get_default.
    rewrite !get_validOnly by (simpl; tauto). reflexivity.
Qed.

(** C1.  A descriptor without the [keyTime] property does not validate, at
    any index.  The group form throws the error that names [keyTime] and
    the index.  The one-shot form, when the descriptor has no unknown
    property, throws an error that names the index too, but the field it
    names is [keyValue]. *)
Theorem missing_keyTime_rejected (key : object) (index : nat) :
  get key "keyTime" = VUndefined ->
  (forall h : Host,
     AnimGroup.validateKeyframe h key index =
     Throw (Error ("keyTime is required in keyframe " ++ String_of_nat index))) /\
  (unknownNames key = [] ->
   EKeys.validateKeyframe key index =
   Throw (Error ("keyValue is required in keyframe " ++ String_of_nat index))).
Proof.
  intros Hmissing. split.
  - intros h. unfold AnimGroup.validateKeyframe, AnimGroup.get_required.
    rewrite Hmissing. reflexivity.
  - intros Hknown. unfold EKeys.validateKeyframe. fold (unknownNames key).
    rewrite Hknown, Hmissing. reflexivity.
Qed.

End Validation.

(** ** The easing solver *)

Section EasingSolver.
Variable h : Host.

Lemma outsideUnitInterval_guard (x : float) :
  outsideUnitInterval x = true -> (0 <=? x) && (x <=? 1) = false.
Proof.
  unfold outsideUnitInterval, is_nan. intros H.
  apply orb_true_iff in H. destruct H as [H | H].
  - apply orb_true_iff in H. destruct H as [H | H].
    + rewrite (ltb_not_leb _ _ H). reflexivity.
    + rewrite (ltb_not_leb _ _ H). apply andb_false_r.
  - destruct (0 <=? x) eqn:E; [ | reflexivity ].
    rewrite (leb_eqb_refl _ _ E) in H. discriminate.
Qed.

Lemma xValuesInRange_false (mX1 mX2 : float) :
  outsideUnitInterval mX1 = true \/ outsideUnitInterval mX2 = true ->
  Easing.xValuesInRange mX1 mX2 = false.
Proof.
  unfold Easing.xValuesInRange.
  intros [H | H]; apply outsideUnitInterval_guard in H.
  - rewrite H. reflexivity.
  - rewrite <- andb_assoc, H. apply andb_false_r.
Qed.

(** C9. Whenever [x1] or [x2] lies outside [[0, 1]], whatever [y1] and [y2]
    are, [bezier] throws the range error and returns no easing function. *)
Theorem bezier_rejects_x_outside_unit_interval (mX1 mY1 mX2 mY2 : float) :
  outsideUnitInterval mX1 = true \/ outsideUnitInterval mX2 = true ->
  Easing.bezier h mX1 mY1 mX2 mY2 =
  Throw (Error "bezier x values must be in [0, 1] range").
Proof.
  intros H. unfold Easing.bezier. rewrite (xValuesInRange_false _ _ H). reflexivity.
Qed.

(** C8. With both x handles in [[0, 1]], [x1 === y1] and [x2 === y2],
    [bezier] returns [LinearEasing], the identity, and builds no sample
    table; so the eased value of every [t] is [t] itself.  In particular
    [bezier(x, x, x, x)] is the identity for every [x] in [[0, 1]]. *)
Theorem bezier_linear_collapse (mX1 mY1 mX2 mY2 : float) :
  Easing.xValuesInRange mX1 mX2 = true ->
  (mX1 =? mY1) = true -> (mX2 =? mY2) = true ->
  Easing.bezier h mX1 mY1 mX2 mY2 = Return Easing.LinearEasing /\
  (forall t : float, Easing.LinearEasing t = t) /\
  (forall x : float, (0 <=? x) = true -> (x <=? 1) = true ->
     Easing.bezier h x x x x = Return Easing.LinearEasing).
Proof.
  intros Hrange H1 H2. split; [ | split ].
  - unfold Easing.bezier. rewrite Hrange, H1, H2. reflexivity.
  - reflexivity.
  - intros x H0 Hle. unfold Easing.bezier, Easing.xValuesInRange.
    rewrite H0, Hle, (leb_eqb_refl _ _ H0). reflexivity.
Qed.

End EasingSolver.

(** ** Locating the current keyframe *)

Section Locator.

Lemma advance_bounds (following : list Keyframe) (time : float) (curKeyNum : nat) :
  (curKeyNum <= advance following time curKeyNum <= curKeyNum + List.length following)%nat.
Proof.
  revert curKeyNum. induction following as [ | next following IH]; intros c; simpl.
  - lia.
  - destruct (keyTime next <=? time); [ specialize (IH (S c)) | ]; lia.
Qed.

(** The scan only runs to the end when every keyframe it meets is
    reached. *)
Lemma advance_to_end (following : list Keyframe) (time : float) (curKeyNum : nat) :
  advance following time curKeyNum = (curKeyNum + List.length following)%nat ->
  Forall (reached time) following.
Proof.
  revert curKeyNum. induction following as [ | next following IH]; intros c; simpl.
  - constructor.
  - destruct (keyTime next <=? time) eqn:E.
    + intros H. constructor; [ exact E | ]. apply (IH (S c)). lia.
    + intros H. lia.
Qed.

(** The scan walks past a prefix of reached keyframes. *)
Lemma advance_app (passed following : list Keyframe) (time : float) (curKeyNum : nat) :
  Forall (reached time) passed ->
  advance (passed ++ following) time curKeyNum =
  advance following time (curKeyNum + List.length passed).
Proof.
  intros H. revert curKeyNum.
  induction H as [ | key passed Hkey _ IH]; intros c; simpl.
  - f_equal. lia.
  - unfold reached in Hkey. rewrite Hkey, IH. f_equal. lia.
Qed.

(** With at least two keyframes, [keys[keys.length - 1]] is the last of the
    keyframes after the first. *)
Lemma last_of_following (firstKey : Keyframe) (following : list Keyframe) :
  following <> [] ->
  nth_error (firstKey :: following) (List.length (firstKey :: following) - 1) =
  nth_error following (List.length following - 1).
Proof.
  intros H. destruct following as [ | k following]; [ congruence | ].
  simpl. rewrite Nat.sub_0_r. reflexivity.
Qed.

(** When the time is before the last keyframe, the scan stops on a keyframe
    that has a successor. *)
Lemma getCurrentKeyNum_has_next (keys : list Keyframe) (lastKey : Keyframe)
  (time : float) :
  (2 <= List.length keys)%nat ->
  nth_error keys (List.length keys - 1) = Some lastKey ->
  (keyTime lastKey <=? time) = false ->
  (getCurrentKeyNum keys time + 1 < List.length keys)%nat.
Proof.
  intros Hlen Hlast Hbefore.
  destruct keys as [ | firstKey following]; [ simpl in Hlen; lia | ].
  assert (Hne : following <> [])
    by (destruct following; simpl in *; [ lia | congruence ]).
  rewrite (last_of_following _ _ Hne) in Hlast.
  unfold getCurrentKeyNum. simpl tl. simpl List.length.
  pose proof (advance_bounds following time 0) as [_ Hle].
  destruct (Nat.eq_dec (advance following time 0) (0 + List.length following))
    as [E | E]; [ | lia ].
  apply advance_to_end in E.
  apply nth_error_In in Hlast.
  rewrite Forall_forall in E. specialize (E _ Hlast).
  unfold reached in E. congruence.
Qed.

End Locator.

(** ** Boundaries, and the interior of the group form *)

Section Boundaries.
Variable h : Host.

(** A validated keyframe has no property named [value]. *)
Lemma Keyframe_get_value (key : Keyframe) : Keyframe_get key "value" = VUndefined.
Proof. reflexivity. Qed.

(** C10. In the group form, for two or more validated keyframes and a time
    strictly between the first and the last [keyTime], [anim(time)] returns
    [undefined]: the shortcut compares [curKey.value] with [nextKey.value],
    both [undefined], and returns [curKey.value]; the easing and the
    interpolation below it are never reached. *)
Theorem anim_interior_returns_undefined (keys : list Keyframe)
  (firstKey lastKey : Keyframe) (time : float) :
  (2 <= List.length keys)%nat ->
  nth_error keys 0 = Some firstKey ->
  nth_error keys (List.length keys - 1) = Some lastKey ->
  (keyTime firstKey <? time) = true ->
  (time <? keyTime lastKey) = true ->
  AnimGroup.anim h keys (VNumber time) = Return VUndefined.
Proof.
  intros Hlen Hfirst Hlast Hafter Hbefore.
  apply ltb_not_leb in Hafter. apply ltb_not_leb in Hbefore.
  pose proof (getCurrentKeyNum_has_next keys lastKey time Hlen Hlast Hbefore) as Hnext.
  unfold AnimGroup.anim, AnimGroup.animateBetweenKeys.
  cbn -[nth_error Nat.sub getCurrentKeyNum].
  rewrite Hlast, Hfirst, Hafter, Hbefore.
  destruct (nth_error keys (getCurrentKeyNum keys time)) as [curKey | ] eqn:Ecur.
  - destruct (nth_error keys (getCurrentKeyNum keys time + 1)) as [nextKey | ] eqn:Enext.
    + reflexivity.
    + apply nth_error_None in Enext. lia.
  - apply nth_error_None in Ecur. lia.
Qed.

(** X22.  Whatever the keyframes and the argument, a value that [anim] returns is
    [undefined] or the [keyValue] of one of the keyframes, as it stands: the
    group form never interpolates. *)
Lemma anim_never_interpolates (keys : list Keyframe) (time v : value) :
  AnimGroup.anim h keys time = Return v ->
  v = VUndefined \/ exists key, In key keys /\ v = keyValue key.
Proof.
  unfold AnimGroup.anim, AnimGroup.animateBetweenKeys.
  destruct time as [ | | b | t | s | r elts | r ]; try discriminate.
  cbn -[nth_error Nat.sub getCurrentKeyNum].
  destruct (nth_error keys (List.length keys - 1)) as [lastKey | ] eqn:Elast;
    [ | discriminate ].
  destruct (nth_error keys 0) as [firstKey | ] eqn:Efirst; [ | discriminate ].
  destruct (t <=? keyTime firstKey).
  - intros H. injection H as <-. right. exists firstKey.
    split; [ exact (nth_error_In _ _ Efirst) | reflexivity ].
  - destruct (keyTime lastKey <=? t).
    + intros H. injection H as <-. right. exists lastKey.
      split; [ exact (nth_error_In _ _ Elast) | reflexivity ].
    + destruct (nth_error keys (getCurrentKeyNum keys t)); [ | discriminate ].
      destruct (nth_error keys (getCurrentKeyNum keys t + 1)); [ | discriminate ].
      intros H. injection H as <-. left. reflexivity.
Qed.

(** C3, as the code has it.  For every sequence of validated keyframes with
    at least one keyframe and every numeric time: at or before the first
    [keyTime] both forms return the first [keyValue]; otherwise, at or after
    the last [keyTime], both return the last [keyValue].  The first test is
    made first.  No easing is involved: the result does not depend on the
    interpolator or on the ease values. *)
Theorem boundary_values (interpolator : option EKeys.interpolatorFn)
  (keys : list Keyframe) (firstKey lastKey : Keyframe) (time : float) :
  nth_error keys 0 = Some firstKey ->
  nth_error keys (List.length keys - 1) = Some lastKey ->
  ((time <=? keyTime firstKey) = true ->
     EKeys.animateBetweenKeys h interpolator keys time = Return (keyValue firstKey) /\
     AnimGroup.anim h keys (VNumber time) = Return (keyValue firstKey)) /\
  ((time <=? keyTime firstKey) = false -> (keyTime lastKey <=? time) = true ->
     EKeys.animateBetweenKeys h interpolator keys time = Return (keyValue lastKey) /\
     AnimGroup.anim h keys (VNumber time) = Return (keyValue lastKey)).
Proof.
  intros Hfirst Hlast.
  unfold EKeys.animateBetweenKeys, AnimGroup.anim, AnimGroup.animateBetweenKeys.
  cbn -[nth_error Nat.sub getCurrentKeyNum]. rewrite Hfirst, Hlast.
  split.
  - intros H1. rewrite H1. split; reflexivity.
  - intros H1 H2. rewrite H1, H2. split; reflexivity.
Qed.

End Boundaries.

(** ** Between two keyframes *)

Section Bracket.
Variable h : Host.

Lemma ascending_split (before : list Keyframe) (key : Keyframe)
  (after : list Keyframe) :
  ascending (before ++ key :: after) ->
  Forall (fun a => notAfter a key) before /\ Forall (notAfter key) after.
Proof.
  unfold ascending. induction before as [ | b before IH]; simpl; intros H.
  - apply StronglySorted_inv in H. destruct H as [_ H]. split; [ constructor | exact H ].
  - apply StronglySorted_inv in H. destruct H as [Hs Hb].
    destruct (IH Hs) as [H1 H2]. split; [ | exact H2 ].
    constructor; [ | exact H1 ].
    rewrite Forall_forall in Hb. apply Hb. apply in_or_app. right. left. reflexivity.
Qed.

(** The last keyframe of a sequence that ends with [nextKey :: post]. *)
Lemma last_after (front : list Keyframe) (nextKey : Keyframe) (post : list Keyframe) :
  exists lastKey,
    nth_error (front ++ nextKey :: post)
              (List.length (front ++ nextKey :: post) - 1) = Some lastKey /\
    (lastKey = nextKey \/ In lastKey post).
Proof.
  destruct (nth_error (nextKey :: post) (List.length post)) as [lastKey | ] eqn:E.
  - exists lastKey. split.
    + rewrite nth_error_app2 by (rewrite length_app; simpl; lia).
      rewrite <- E. f_equal. rewrite length_app. simpl. lia.
    + apply nth_error_In in E. destruct E as [E | E]; [ left | right ]; auto.
  - apply nth_error_None in E. simpl in E. lia.
Qed.

(** Where the two boundary tests and the scan lead when [curKey] has been
    reached and [nextKey] has not: to the pair [curKey], [nextKey]. *)
Lemma bracket_located (pre : list Keyframe) (curKey nextKey : Keyframe)
  (post : list Keyframe) (time : float) :
  ascending (pre ++ curKey :: nextKey :: post) ->
  reached time curKey ->
  (time <? keyTime nextKey) = true ->
  getCurrentKeyNum (pre ++ curKey :: nextKey :: post) time = List.length pre /\
  exists lastKey,
    nth_error (pre ++ curKey :: nextKey :: post)
              (List.length (pre ++ curKey :: nextKey :: post) - 1) = Some lastKey /\
    (keyTime lastKey <=? time) = false.
Proof.
  intros Hasc Hcur Hnext. split.
  - unfold getCurrentKeyNum.
    pose proof (ltb_not_leb _ _ Hnext) as Hstop.
    destruct pre as [ | firstKey pre]; simpl.
    + rewrite Hstop. reflexivity.
    + change (firstKey :: pre) with ([firstKey] ++ pre)%list in Hasc.
      rewrite <- app_assoc in Hasc.
      destruct (ascending_split ([firstKey] ++ pre)%list curKey _ Hasc) as [Hbefore _].
      apply Forall_app in Hbefore. destruct Hbefore as [_ Hbefore].
      change (pre ++ curKey :: nextKey :: post)%list
        with (pre ++ [curKey] ++ nextKey :: post)%list.
      rewrite app_assoc, advance_app.
      * simpl. rewrite Hstop. rewrite length_app. simpl. lia.
      * apply Forall_app. split; [ | constructor; [ exact Hcur | constructor ] ].
        eapply Forall_impl; [ | exact Hbefore ].
        intros a Ha. exact (leb_trans _ _ _ Ha Hcur).
  - change (pre ++ curKey :: nextKey :: post)%list
      with (pre ++ [curKey] ++ nextKey :: post)%list in *.
    rewrite app_assoc in *.
    destruct (last_after (pre ++ [curKey])%list nextKey post) as [lastKey [Hlast Hwhere]].
    exists lastKey. split; [ exact Hlast | ].
    apply ltb_not_leb. destruct Hwhere as [-> | Hin]; [ exact Hnext | ].
    destruct (ascending_split _ nextKey _ Hasc) as [_ Hafter].
    rewrite Forall_forall in Hafter.
    exact (ltb_leb_trans _ _ _ Hnext (Hafter _ Hin)).
Qed.

(** The first keyframe is at or before [curKey]. *)
Lemma first_not_after (pre : list Keyframe) (curKey : Keyframe)
  (rest : list Keyframe) (time : float) :
  ascending (pre ++ curKey :: rest) ->
  reached time curKey ->
  exists firstKey,
    nth_error (pre ++ curKey :: rest) 0 = Some firstKey /\
    notAfter firstKey curKey.
Proof.
  intros Hasc Hcur. destruct pre as [ | firstKey pre]; simpl.
  - exists curKey. split; [ reflexivity | ].
    exact (leb_refl_left _ _ Hcur).
  - exists firstKey. split; [ reflexivity | ].
    change (firstKey :: pre) with ([firstKey] ++ pre)%list in Hasc.
    rewrite <- app_assoc in Hasc.
    destruct (ascending_split ([firstKey] ++ pre)%list curKey _ Hasc) as [Hbefore _].
    apply Forall_app in Hbefore. destruct Hbefore as [Hfirst _].
    inversion Hfirst; assumption.
Qed.

(** In the one-shot form, a time after the first keyframe that has reached
    [curKey] and not [nextKey] is handled with that pair. *)
Lemma animateBetweenKeys_located (interpolator : option EKeys.interpolatorFn)
  (pre : list Keyframe) (curKey nextKey : Keyframe) (post : list Keyframe)
  (firstKey : Keyframe) (time : float) :
  ascending (pre ++ curKey :: nextKey :: post) ->
  nth_error (pre ++ curKey :: nextKey :: post) 0 = Some firstKey ->
  (keyTime firstKey <? time) = true ->
  reached time curKey ->
  (time <? keyTime nextKey) = true ->
  EKeys.animateBetweenKeys h interpolator (pre ++ curKey :: nextKey :: post) time =
  EKeys.animateFromTo h interpolator (List.length pre) curKey nextKey time.
Proof.
  intros Hasc Hfirst Hafter Hcur Hnext.
  destruct (bracket_located pre curKey nextKey post time Hasc Hcur Hnext)
    as [Hnum [lastKey [Hlast Hbefore]]].
  unfold EKeys.animateBetweenKeys.
  rewrite Hlast, Hfirst, (ltb_not_leb _ _ Hafter), Hbefore, Hnum.
  rewrite nth_error_app2 by lia. rewrite Nat.sub_diag.
  rewrite nth_error_app2 by lia.
  replace (List.length pre + 1 - List.length pre)%nat with 1%nat by lia.
  reflexivity.
Qed.

(** Strictly between [curKey] and [nextKey], the pair is located and the
    time is not [curKey]'s. *)
Lemma animateBetweenKeys_between (interpolator : option EKeys.interpolatorFn)
  (pre : list Keyframe) (curKey nextKey : Keyframe) (post : list Keyframe)
  (time : float) :
  ascending (pre ++ curKey :: nextKey :: post) ->
  (keyTime curKey <? time) = true ->
  (time <? keyTime nextKey) = true ->
  EKeys.animateBetweenKeys h interpolator (pre ++ curKey :: nextKey :: post) time =
  EKeys.animateFromTo h interpolator (List.length pre) curKey nextKey time /\
  (time =? keyTime curKey) = false.
Proof.
  intros Hasc Hcur Hnext.
  pose proof (ltb_leb _ _ Hcur) as Hreached.
  destruct (first_not_after pre curKey (nextKey :: post) time Hasc Hreached)
    as [firstKey [Hfirst Hle]].
  split; [ | exact (ltb_not_eqb _ _ Hcur) ].
  exact (animateBetweenKeys_located interpolator _ _ _ _ firstKey time Hasc
           Hfirst (leb_ltb_trans _ _ _ Hle Hcur) Hreached Hnext).
Qed.

(** C4, as the code has it.  In the one-shot form, on a sequence in
    ascending order, a time that is [===] to the [keyTime] of an interior
    keyframe (one after the first [keyTime] and before a later one) returns
    exactly the [keyValue] of the last keyframe with that [keyTime]:
    [curKey], whose successor is strictly later.  No easing is involved,
    whatever the interpolator and the ease values. *)
Theorem exact_hit_returns_keyValue (interpolator : option EKeys.interpolatorFn)
  (firstKey : Keyframe) (pre : list Keyframe) (curKey nextKey : Keyframe)
  (post : list Keyframe) (time : float) :
  ascending (firstKey :: pre ++ curKey :: nextKey :: post) ->
  (keyTime firstKey <? time) = true ->
  (time =? keyTime curKey) = true ->
  (time <? keyTime nextKey) = true ->
  EKeys.animateBetweenKeys h interpolator
    (firstKey :: pre ++ curKey :: nextKey :: post) time =
  Return (keyValue curKey).
Proof.
  intros Hasc Hafter Hhit Hnext.
  change (firstKey :: pre ++ curKey :: nextKey :: post)
    with ((firstKey :: pre) ++ curKey :: nextKey :: post)%list in *.
  rewrite (animateBetweenKeys_located interpolator _ _ _ _ firstKey time Hasc
             eq_refl Hafter (eqb_leb _ _ Hhit) Hnext).
  unfold EKeys.animateFromTo. rewrite Hhit.
  destruct (strict_equal _ _); reflexivity.
Qed.

(** C5, as the code has it.  In the one-shot form, between two adjacent
    keyframes of an ascending sequence whose [keyValue]s are arrays of
    unequal length (two different objects, then), once the easing step has
    returned, a time strictly between their [keyTime]s throws the dimension
    error, which names the index of the segment and both lengths.  No array
    is returned. *)
Theorem dimension_mismatch_rejected (interpolator : option EKeys.interpolatorFn)
  (pre : list Keyframe) (curKey nextKey : Keyframe) (post : list Keyframe)
  (time : float) (r1 r2 : option nat) (startArray endArray : list float)
  (eased : float) :
  ascending (pre ++ curKey :: nextKey :: post) ->
  (keyTime curKey <? time) = true ->
  (time <? keyTime nextKey) = true ->
  keyValue curKey = VArray r1 startArray ->
  keyValue nextKey = VArray r2 endArray ->
  List.length startArray <> List.length endArray ->
  same_ref r1 r2 = false ->
  EKeys.easedProgress h interpolator curKey nextKey
    (EKeys.linearProgress curKey nextKey time) = Return eased ->
  EKeys.animateBetweenKeys h interpolator (pre ++ curKey :: nextKey :: post) time =
  Throw (TypeError
    ("Keyframe " ++ String_of_nat (List.length pre) ++ " and " ++
     String_of_nat (List.length pre + 1) ++
     " values must be of the same dimension. Received " ++
     String_of_nat (List.length startArray) ++ " and " ++
     String_of_nat (List.length endArray))).
Proof.
  intros Hasc Hcur Hnext Hstart Hend Hlen Hdistinct Heased.
  destruct (animateBetweenKeys_between interpolator _ _ _ _ time Hasc Hcur Hnext)
    as [-> Hmiss].
  unfold EKeys.animateFromTo.
  rewrite Hmiss, Heased, Hstart, Hend. simpl. rewrite Hdistinct.
  unfold EKeys.animateArrayFromProgress.
  apply Nat.eqb_neq in Hlen. rewrite Hlen. reflexivity.
Qed.

(** C6, as the code has it.  In the one-shot form, between two adjacent
    keyframes of an ascending sequence of which one [keyValue] is an array
    and the other a number, once the easing step has returned, a time
    strictly between their [keyTime]s throws the type error, which names
    the index of the segment and the two types.  Neither value is
    converted. *)
Theorem type_mismatch_rejected (interpolator : option EKeys.interpolatorFn)
  (pre : list Keyframe) (curKey nextKey : Keyframe) (post : list Keyframe)
  (time : float) (eased : float) :
  ascending (pre ++ curKey :: nextKey :: post) ->
  (keyTime curKey <? time) = true ->
  (time <? keyTime nextKey) = true ->
  arrayAndNumber (keyValue curKey) (keyValue nextKey) ->
  EKeys.easedProgress h interpolator curKey nextKey
    (EKeys.linearProgress curKey nextKey time) = Return eased ->
  EKeys.animateBetweenKeys h interpolator (pre ++ curKey :: nextKey :: post) time =
  Throw (Error
    ("Keyframe " ++ String_of_nat (List.length pre) ++ " and " ++
     String_of_nat (List.length pre + 1) ++
     " values must be of the same type. Received " ++
     getType (keyValue curKey) ++ " and " ++ getType (keyValue nextKey))) /\
  (getType (keyValue curKey) = "array" /\ getType (keyValue nextKey) = "number" \/
   getType (keyValue curKey) = "number" /\ getType (keyValue nextKey) = "array").
Proof.
  intros Hasc Hcur Hnext Hmixed Heased.
  destruct (animateBetweenKeys_between interpolator _ _ _ _ time Hasc Hcur Hnext)
    as [-> Hmiss].
  unfold EKeys.animateFromTo. rewrite Hmiss, Heased.
  destruct Hmixed as [[Ha Hb] | [Ha Hb]];
    destruct (keyValue curKey); try discriminate;
    destruct (keyValue nextKey); try discriminate;
    simpl; split; auto.
Qed.

End Bracket.

(** ** From the descriptors to the value *)

Section Pipeline.
Variable h : Host.

(** Sorting rearranges the validated keyframes: none is lost, none is
    added. *)
Lemma insert_sorted_Permutation {A : Type} (compareFn : A -> A -> float)
  (x : A) (l : list A) :
  Permutation (x :: l) (insert_sorted compareFn x l).
Proof.
  induction l as [ | y l IH]; simpl.
  - apply Permutation_refl.
  - destruct (0 <? compareFn y x).
    + apply Permutation_refl.
    + apply perm_trans with (y :: x :: l); [ apply perm_swap | ].
      apply perm_skip. exact IH.
Qed.

Lemma Array_sort_Permutation {A : Type} (compareFn : A -> A -> float)
  (l : list A) :
  Permutation l (Array_sort compareFn l).
Proof.
  unfold Array_sort.
  assert (H : forall sorted : list A,
             Permutation (l ++ sorted)
               (fold_left (fun s x => insert_sorted compareFn x s) l sorted)).
  { induction l as [ | x l IH]; intros sorted; simpl.
    - apply Permutation_refl.
    - apply perm_trans with (l ++ x :: sorted)%list.
      + apply Permutation_middle.
      + apply perm_trans with (l ++ insert_sorted compareFn x sorted)%list.
        * apply Permutation_app_head. apply insert_sorted_Permutation.
        * apply IH. }
  specialize (H []). rewrite app_nil_r in H. exact H.
Qed.

(** With a numeric time, the one-shot form is [animateBetweenKeys] on the
    validated, sorted keys. *)
Lemma oneShot_validKeys (inputKeyframes : list object) (keys : list Keyframe)
  (time : float) (interpolator : option EKeys.interpolatorFn) :
  EKeys.validKeys inputKeyframes = Return keys ->
  oneShot h inputKeyframes time interpolator =
  EKeys.animateBetweenKeys h interpolator keys time.
Proof.
  intros H. unfold oneShot, EKeys.animate.
  cbn -[EKeys.validKeys EKeys.animateBetweenKeys].
  rewrite H. reflexivity.
Qed.

Lemma groupQuery_keys (inputKeyframes : list object) (keys : list Keyframe)
  (time : value) :
  AnimGroup.AnimGroup h inputKeyframes = Return keys ->
  groupQuery h inputKeyframes time = AnimGroup.anim h keys time.
Proof. intros H. unfold groupQuery. rewrite H. reflexivity. Qed.

End Pipeline.

(** ** The examples, evaluated *)

Section Evaluations.
Import Examples.

(** C2.  The keyframes [{keyTime: 0, keyValue: 0}] and [{keyTime: 10,
    keyValue: 100}] under identity easing.  The one-shot form returns
    exactly 50 at time 5 and exactly 25 at time 2.5, with the [linear]
    interpolator as with handles that make [bezier] the identity.  The
    group form returns [undefined] at both times. *)
Theorem roundtrip_scalar_interpolation (h : Host) :
  (oneShot h zeroToHundred 5 (Some EKeys.linear) = Return (VNumber 50) /\
   oneShot h zeroToHundred 2.5 (Some EKeys.linear) = Return (VNumber 25) /\
   oneShot h zeroToHundredDiagonal 5 None = Return (VNumber 50) /\
   oneShot h zeroToHundredDiagonal 2.5 None = Return (VNumber 25)) /\
  (groupQuery h zeroToHundredDiagonal (VNumber 5) = Return VUndefined /\
   groupQuery h zeroToHundredDiagonal (VNumber 2.5) = Return VUndefined /\
   groupQuery h zeroToHundred (VNumber 5) = Return VUndefined /\
   groupQuery h zeroToHundred (VNumber 2.5) = Return VUndefined).
Proof. repeat split; vm_compute; reflexivity. Qed.

(** [Number::toString] of the reference host on a few numbers. *)
Example Number_toString_examples :
  map NumberToString.Number_toString
    [0.5; 0.1 + 0.2; 1e21; 1e-7; 123456789; -2.5; 100; 1 / 3; nan; infinity] =
  ["0.5"; "0.30000000000000004"; "1e+21"; "1e-7"; "123456789"; "-2.5"; "100";
   "0.3333333333333333"; "NaN"; "Infinity"].
Proof. vm_compute. reflexivity. Qed.

(** The type error of the group form starts with the rejected value itself:
    an array given as [keyTime]. *)
Example AnimGroup_typeError_example :
  AnimGroup.validateKeyframe referenceHost
    (descriptor (VArray None [1.5; 2]) (VNumber 5)) 0 =
  Throw (TypeError "1.5,2 must be of type number. Received array").
Proof. vm_compute. reflexivity. Qed.

(** The type error of the one-shot form starts with the name of the field. *)
Example EKeys_typeError_example :
  EKeys.validateKeyframe (descriptor (VNumber 1) (VString "x")) 12 =
  Throw (TypeError
           "Keyframe 12 value must be of type number,array. Received string").
Proof. vm_compute. reflexivity. Qed.

(** Keyframes given out of order are sorted by [keyTime], ties in input
    order. *)
Example validKeys_sorted_example :
  EKeys.validKeys
    [descriptor (VNumber 10) (VNumber 100); descriptor (VNumber 0) (VNumber 0);
     descriptor (VNumber 5) (VNumber 7); descriptor (VNumber 0) (VNumber 1)] =
  Return [validated 0 (VNumber 0); validated 0 (VNumber 1);
          validated 5 (VNumber 7); validated 10 (VNumber 100)].
Proof. vm_compute. reflexivity. Qed.

(** The vector example of the specification: halfway between [[0, 0]] and
    [[10, 20]] under the [linear] interpolator. *)
Example vector_interpolation_example :
  oneShot referenceHost
    [descriptor (VNumber 0) (VArray None [0; 0]);
     descriptor (VNumber 10) (VArray None [10; 20])] 5 (Some EKeys.linear) =
  Return (VArray None [5; 10]).
Proof. vm_compute. reflexivity. Qed.

(** The cubic [bezier(0.25, 0.1, 0.25, 1)] halfway. *)
Example bezierEasing_example :
  match Easing.bezier referenceHost 0.25 0.1 0.25 1 with
  | Return easing => easing 0.5
  | Throw _ => nan
  end = 0.80240338758485696.
Proof. vm_compute. reflexivity. Qed.

(** Two keyframes share the time 0 and the query is at 0: the time is at or
    after the last [keyTime], and the value returned is the first
    keyframe's, 1, not the last one's, 2. *)
Lemma boundary_values_counterexample :
  EKeys.validKeys tied =
    Return [validated 0 (VNumber 1); validated 0 (VNumber 2)] /\
  (keyTime (validated 0 (VNumber 2)) <=? 0) = true /\
  oneShot referenceHost tied 0 None = Return (VNumber 1) /\
  groupQuery referenceHost tied (VNumber 0) = Return (VNumber 1).
Proof. repeat split; vm_compute; reflexivity. Qed.

(** The keyframes at time 5 with values 1 and 2 are both interior; at time
    5 the value returned is 2, so it is not the [keyValue] of the keyframe
    with value 1.  In the group form the value returned is [undefined]. *)
Lemma exact_hit_counterexample :
  EKeys.validKeys tiedInside =
    Return [validated 0 (VNumber 0); validated 5 (VNumber 1);
            validated 5 (VNumber 2); validated 10 (VNumber 3)] /\
  (5 =? keyTime (validated 5 (VNumber 1))) = true /\
  oneShot referenceHost tiedInside 5 None = Return (VNumber 2) /\
  groupQuery referenceHost tiedInside (VNumber 5) = Return VUndefined.
Proof. repeat split; vm_compute; reflexivity. Qed.

(** Arrays of two and of three numbers at adjacent times, queried in
    between.  With an outgoing ease of 150 percent the one-shot form throws
    the range error of [bezier] before it looks at the arrays; the group
    form throws nothing. *)
Lemma dimension_mismatch_counterexample :
  oneShot referenceHost twoThenThreeOvershoot 5 None =
    Throw (Error "bezier x values must be in [0, 1] range") /\
  groupQuery referenceHost twoThenThree (VNumber 5) = Return VUndefined.
Proof. split; vm_compute; reflexivity. Qed.

(** An array and a number at adjacent times, queried in between: the same
    two outcomes. *)
Lemma type_mismatch_counterexample :
  oneShot referenceHost arrayThenNumberOvershoot 5 None =
    Throw (Error "bezier x values must be in [0, 1] range") /\
  groupQuery referenceHost arrayThenNumber (VNumber 5) = Return VUndefined.
Proof. split; vm_compute; reflexivity. Qed.

(** The group form accepts a descriptor with a property named [time]. *)
Lemma unknown_field_counterexample :
  AnimGroup.validateKeyframe referenceHost withTime 0 =
  Return (validated 0 (VNumber 0)).
Proof. vm_compute. reflexivity. Qed.

End Evaluations.

(** ** The theorems at the inputs of the examples *)

Section Instances.
Import Examples.

Ltac in_order := repeat (constructor; try reflexivity).

(** [{keyValue: 5}] at index 0: the two messages. *)
Lemma missing_keyTime_rejected_witness :
  (forall h : Host,
     AnimGroup.validateKeyframe h onlyValue 0 =
     Throw (Error "keyTime is required in keyframe 0")) /\
  EKeys.validateKeyframe onlyValue 0 =
    Throw (Error "keyValue is required in keyframe 0").
Proof.
  destruct (missing_keyTime_rejected onlyValue 0 eq_refl) as [Hgroup Hshot].
  split; [ exact Hgroup | exact (Hshot eq_refl) ].
Defined.

(** A property named [time] at index 7: the message and its hint. *)
Lemma unknown_field_rejected_witness :
  EKeys.validateKeyframe withTime 7 =
    Throw (Error
      ("Unexpected property on keyframe 7: time. Did you mean " ++ dquote ++
       "keyTime" ++ dquote ++ "?")) /\
  (forall h : Host,
     AnimGroup.validateKeyframe h withTime 7 =
     AnimGroup.validateKeyframe h (descriptor (VNumber 0) (VNumber 0)) 7).
Proof.
  apply (unknown_field_rejected withTime 7).
  exists "time". split.
  - simpl. tauto.
  - simpl. intros H. repeat (destruct H as [H | H]; [ discriminate | ]). exact H.
Defined.

(** The handle positions of the claim: [bezier(1.5, 0, 0.5, 1)] throws. *)
Lemma bezier_rejects_x_outside_unit_interval_witness :
  Easing.bezier referenceHost 1.5 0 0.5 1 =
  Throw (Error "bezier x values must be in [0, 1] range").
Proof.
  apply (bezier_rejects_x_outside_unit_interval referenceHost 1.5 0 0.5 1).
  left. reflexivity.
Defined.

(** Equal handles at a third and two thirds: the easing is the identity. *)
Lemma bezier_linear_collapse_witness :
  Easing.bezier referenceHost (33 / 100) (33 / 100) (1 - 33 / 100) (1 - 33 / 100) =
    Return Easing.LinearEasing /\
  (forall t : float, Easing.LinearEasing t = t) /\
  (forall x : float, (0 <=? x) = true -> (x <=? 1) = true ->
     Easing.bezier referenceHost x x x x = Return Easing.LinearEasing).
Proof.
  apply (bezier_linear_collapse referenceHost
           (33 / 100) (33 / 100) (1 - 33 / 100) (1 - 33 / 100));
    reflexivity.
Defined.

(** The group of the round-trip example, queried at 5. *)
Lemma anim_interior_returns_undefined_witness :
  AnimGroup.anim referenceHost
    [validated 0 (VNumber 0); validated 10 (VNumber 100)] (VNumber 5) =
  Return VUndefined.
Proof.
  apply (anim_interior_returns_undefined referenceHost
           [validated 0 (VNumber 0); validated 10 (VNumber 100)]
           (validated 0 (VNumber 0)) (validated 10 (VNumber 100)) 5);
    reflexivity.
Defined.

(** The same keyframes before the first and after the last. *)
Lemma boundary_values_witness :
  (EKeys.animateBetweenKeys referenceHost None
     [validated 0 (VNumber 0); validated 10 (VNumber 100)] (-1) =
     Return (VNumber 0) /\
   AnimGroup.anim referenceHost
     [validated 0 (VNumber 0); validated 10 (VNumber 100)] (VNumber (-1)) =
     Return (VNumber 0)) /\
  (EKeys.animateBetweenKeys referenceHost None
     [validated 0 (VNumber 0); validated 10 (VNumber 100)] 11 =
     Return (VNumber 100) /\
   AnimGroup.anim referenceHost
     [validated 0 (VNumber 0); validated 10 (VNumber 100)] (VNumber 11) =
     Return (VNumber 100)).
Proof.
  split.
  - apply (boundary_values referenceHost None
             [validated 0 (VNumber 0); validated 10 (VNumber 100)]
             (validated 0 (VNumber 0)) (validated 10 (VNumber 100)) (-1)
             eq_refl eq_refl).
    reflexivity.
  - apply (boundary_values referenceHost None
             [validated 0 (VNumber 0); validated 10 (VNumber 100)]
             (validated 0 (VNumber 0)) (validated 10 (VNumber 100)) 11
             eq_refl eq_refl); reflexivity.
Defined.

(** Two keyframes at time 5: the query at 5 returns the value of the second. *)
Lemma exact_hit_returns_keyValue_witness :
  EKeys.animateBetweenKeys referenceHost None
    [validated 0 (VNumber 0); validated 5 (VNumber 1);
     validated 5 (VNumber 2); validated 10 (VNumber 3)] 5 =
  Return (VNumber 2).
Proof.
  apply (exact_hit_returns_keyValue referenceHost None
           (validated 0 (VNumber 0)) [validated 5 (VNumber 1)]
           (validated 5 (VNumber 2)) (validated 10 (VNumber 3)) [] 5);
    try reflexivity.
  in_order.
Defined.

(** Two numbers then three, with the default handles. *)
Lemma dimension_mismatch_rejected_witness :
  EKeys.animateBetweenKeys referenceHost None
    [validated 0 (VArray None [0; 0]); validated 10 (VArray None [0; 0; 0])] 5 =
  Throw (TypeError
    "Keyframe 0 and 1 values must be of the same dimension. Received 2 and 3").
Proof.
  apply (dimension_mismatch_rejected referenceHost None []
           (validated 0 (VArray None [0; 0]))
           (validated 10 (VArray None [0; 0; 0])) [] 5
           None None [0; 0] [0; 0; 0] 0.5);
    try reflexivity.
  - in_order.
  - simpl. lia.
Defined.

(** An array then a number, with the default handles. *)
Lemma type_mismatch_rejected_witness :
  EKeys.animateBetweenKeys referenceHost None
    [validated 0 (VArray None [0; 0]); validated 10 (VNumber 3)] 5 =
  Throw (Error
    "Keyframe 0 and 1 values must be of the same type. Received array and number").
Proof.
  apply (type_mismatch_rejected referenceHost None []
           (validated 0 (VArray None [0; 0])) (validated 10 (VNumber 3)) [] 5 0.5);
    try reflexivity.
  - in_order.
  - left. split; reflexivity.
Defined.

End Instances.

(** * Further properties *)

(** ** Validating a list of descriptors *)

Section ListValidation.

Lemma mapi_from_app {A B : Type} (f : A -> nat -> result B) (index : nat)
  (l1 l2 : list A) :
  mapi_from f index (l1 ++ l2) =
  (ys1 <- mapi_from f index l1 ;;
   ys2 <- mapi_from f (index + List.length l1) l2 ;;
   Return (ys1 ++ ys2)%list).
Proof.
  revert index. induction l1 as [ | x l1 IH]; intros index; simpl.
  - rewrite Nat.add_0_r. destruct (mapi_from f index l2); reflexivity.
  - destruct (f x index) as [y | e]; simpl; [ | reflexivity ].
    rewrite IH. replace (S index + List.length l1)%nat
      with (index + S (List.length l1))%nat by lia.
    destruct (mapi_from f (S index) l1) as [ys1 | e]; simpl; [ | reflexivity ].
    destruct (mapi_from f _ l2); reflexivity.
Qed.

(** What a successful [map] returns, element by element. *)
Lemma mapi_from_Return {A B : Type} (f : A -> nat -> result B) (index : nat)
  (l : list A) (ys : list B) :
  mapi_from f index l = Return ys ->
  Forall2 (fun x y => exists i, f x i = Return y) l ys.
Proof.
  revert index ys. induction l as [ | x l IH]; intros index ys; simpl.
  - intros H. injection H as <-. constructor.
  - intros H. apply bind_Return in H. destruct H as [y [Hy H]].
    apply bind_Return in H. destruct H as [ys' [Hys H]].
    injection H as <-. constructor; [ exists index; exact Hy | exact (IH _ _ Hys) ].
Qed.

Lemma mapi_from_agree {A B : Type} (f g : A -> nat -> result B) (index : nat)
  (l : list A) (ys : list B) :
  (forall x i y, f x i = Return y -> g x i = Return y) ->
  mapi_from f index l = Return ys -> mapi_from g index l = Return ys.
Proof.
  intros Hfg. revert index ys. induction l as [ | x l IH]; intros index ys; simpl.
  - auto.
  - intros H. apply bind_Return in H. destruct H as [y [Hy H]].
    apply bind_Return in H. destruct H as [ys' [Hys H]].
    rewrite (Hfg _ _ _ Hy), (IH _ _ Hys). exact H.
Qed.

Lemma numberOrAbsent_default (key : object) (name : string) (d x : float) :
  get_default key name (VNumber d) = VNumber x -> numberOrAbsent (get key name).
Proof.
  unfold get_default, numberOrAbsent.
  destruct (get key name); intros H; try discriminate; auto.
Qed.

Lemma default_is_number (key : object) (name : string) (d : float) :
  numberOrAbsent (get key name) ->
  get_default key name (VNumber d) =
  VNumber (asNumber (get_default key name (VNumber d))).
Proof.
  unfold get_default, numberOrAbsent.
  intros [H | H]; destruct (get key name); try discriminate; reflexivity.
Qed.

(** What [holds] says, in terms of the descriptor alone. *)
Lemma holds_keyframeOf (key : object) (k : Keyframe) :
  holds key k <-> wellTyped key /\ k = keyframeOf key.
Proof.
  unfold holds, wellTyped, keyframeOf. split.
  - intros [Ht [Hv [Hshape [Hei [Heo [Hvi Hvo]]]]]].
    split.
    + rewrite Ht, Hv. unfold numberOrArray.
      repeat split; eauto using numberOrAbsent_default.
    + rewrite Ht, Hv, Hei, Heo, Hvi, Hvo. destruct k; reflexivity.
  - intros [[Ht [Hv [Hei [Heo [Hvi Hvo]]]]] ->]. simpl.
    repeat split; auto using default_is_number.
    destruct (get key "keyTime"); try discriminate; reflexivity.
Qed.

Lemma EKeys_checkTypes_pass (checkingArray : list (string * value * expectedType)) :
  Forall (fun c => isValidType (getType (snd (fst c))) (snd c) = true) checkingArray ->
  EKeys.checkTypes checkingArray = Return tt.
Proof.
  induction 1 as [ | [[name v] expected] rest Hc _ IH]; simpl; [ reflexivity | ].
  simpl in Hc. rewrite Hc. exact IH.
Qed.

Lemma AnimGroup_checkTypes_pass (h : Host)
  (checkingArray : list (value * expectedType)) :
  Forall (fun c => isValidType (getType (fst c)) (snd c) = true) checkingArray ->
  AnimGroup.checkTypes h checkingArray = Return tt.
Proof.
  induction 1 as [ | [v expected] rest Hc _ IH]; simpl; [ reflexivity | ].
  simpl in Hc. rewrite Hc. exact IH.
Qed.

Lemma number_isValidType (v : value) :
  typeof_number v = true -> isValidType (getType v) (TypeName "number") = true.
Proof. destruct v; simpl; intros H; try discriminate; reflexivity. Qed.

Lemma numberOrArray_isValidType (v : value) :
  numberOrArray v -> isValidType (getType v) (TypeNames ["number"; "array"]) = true.
Proof.
  intros [H | H]; destruct v; simpl in *; try discriminate; reflexivity.
Qed.

Lemma default_isValidType (key : object) (name : string) (d : float) :
  numberOrAbsent (get key name) ->
  isValidType (getType (get_default key name (VNumber d))) (TypeName "number") = true.
Proof.
  intros H. rewrite (default_is_number _ _ _ H). reflexivity.
Qed.

(** A well-typed descriptor passes the six type checks of either form. *)
Lemma wellTyped_validates (h : Host) (key : object) (index : nat) :
  wellTyped key ->
  AnimGroup.validateKeyframe h key index = Return (keyframeOf key) /\
  (unknownNames key = [] ->
   EKeys.validateKeyframe key index = Return (keyframeOf key)).
Proof.
  intros [Ht [Hv [Hei [Heo [Hvi Hvo]]]]]. split.
  - unfold AnimGroup.validateKeyframe, AnimGroup.get_required.
    assert (Et : exists t, get key "keyTime" = VNumber t)
      by (destruct (get key "keyTime"); try discriminate; eauto).
    destruct Et as [t Et].
    assert (Ev : get key "keyValue" <> VUndefined)
      by (intros E; rewrite E in Hv; destruct Hv; discriminate).
    unfold keyframeOf. rewrite Et.
    destruct (get key "keyValue") eqn:Ekv; try congruence;
      cbn [bind];
      (rewrite AnimGroup_checkTypes_pass;
       [ reflexivity
       | repeat constructor; cbn [fst snd];
         auto using default_isValidType, numberOrArray_isValidType ]).
  - intros Hknown. unfold EKeys.validateKeyframe. fold (unknownNames key).
    rewrite Hknown. cbn [List.length Nat.eqb negb].
    assert (Et : exists t, get key "keyTime" = VNumber t)
      by (destruct (get key "keyTime"); try discriminate; eauto).
    destruct Et as [t Et].
    assert (Ev : loosely_null (get key "keyValue") = false)
      by (destruct Hv; destruct (get key "keyValue"); try discriminate; reflexivity).
    unfold keyframeOf. rewrite Et, Ev. cbn [loosely_null bind].
    rewrite EKeys_checkTypes_pass; [ reflexivity | ].
    repeat constructor; cbn [fst snd];
      auto using default_isValidType, numberOrArray_isValidType.
Qed.

(** X1.  Validation accepts exactly the well-typed descriptors (in the one-shot
    form, those without unknown properties), and the keyframe it returns is
    the descriptor's own values with the defaults 33, 33, 0, 0 filled in,
    whatever the index: [keyTime] and [keyValue] are never defaulted. *)
Theorem validateKeyframe_accepts_exactly (key : object) (index : nat) (k : Keyframe) :
  (EKeys.validateKeyframe key index = Return k <->
   unknownNames key = [] /\ wellTyped key /\ k = keyframeOf key) /\
  (forall h : Host,
     AnimGroup.validateKeyframe h key index = Return k <->
     wellTyped key /\ k = keyframeOf key).
Proof.
  split; [ | intros h ]; split.
  - intros H. split.
    + unfold EKeys.validateKeyframe in H. fold (unknownNames key) in H.
      destruct (unknownNames key); [ reflexivity | discriminate ].
    + apply holds_keyframeOf. exact (EKeys_validateKeyframe_holds _ _ _ H).
  - intros [Hknown [Htyped ->]].
    exact (proj2 (wellTyped_validates referenceHost key index Htyped) Hknown).
  - intros H. apply holds_keyframeOf. exact (AnimGroup_validateKeyframe_holds _ _ _ _ H).
  - intros [Htyped ->]. exact (proj1 (wellTyped_validates h key index Htyped)).
Qed.

(** Validating every descriptor of a list. *)
Lemma Array_map_validated (f : object -> nat -> result Keyframe)
  (inputKeyframes : list object) (validated : list Keyframe) :
  (forall key i k, f key i = Return k -> holds key k) ->
  Array_map f inputKeyframes = Return validated ->
  validated = map keyframeOf inputKeyframes /\ Forall wellTyped inputKeyframes.
Proof.
  intros Hf H. apply mapi_from_Return in H.
  induction H as [ | key k l ks [i Hk] _ IH]; simpl.
  - split; constructor.
  - apply Hf in Hk. apply holds_keyframeOf in Hk. destruct Hk as [Htyped ->].
    destruct IH as [-> IH]. split; [ reflexivity | constructor; assumption ].
Qed.

(** The keys of either form: the keyframes of the descriptors, sorted. *)
Lemma keys_are_sorted_keyframes (inputKeyframes : list object) (keys : list Keyframe) :
  EKeys.validKeys inputKeyframes = Return keys \/
  (exists h, AnimGroup.AnimGroup h inputKeyframes = Return keys) ->
  keys = Array_sort byKeyTime (map keyframeOf inputKeyframes) /\
  Forall wellTyped inputKeyframes.
Proof.
  intros [H | [h H]].
  - unfold EKeys.validKeys in H. apply bind_Return in H.
    destruct H as [validated [Hv H]]. injection H as <-.
    destruct (Array_map_validated _ _ _ EKeys_validateKeyframe_holds Hv) as [-> Ht].
    auto.
  - unfold AnimGroup.AnimGroup in H. apply bind_Return in H.
    destruct H as [validated [Hv H]]. injection H as <-.
    destruct (Array_map_validated _ _ _ (AnimGroup_validateKeyframe_holds h) Hv)
      as [-> Ht].
    auto.
Qed.

Lemma keys_numberOrArray (inputKeyframes : list object) (keys : list Keyframe) :
  EKeys.validKeys inputKeyframes = Return keys \/
  (exists h, AnimGroup.AnimGroup h inputKeyframes = Return keys) ->
  Forall (fun k => numberOrArray (keyValue k)) keys.
Proof.
  intros H. destruct (keys_are_sorted_keyframes _ _ H) as [-> Htyped].
  eapply Permutation_Forall; [ apply Array_sort_Permutation | ].
  apply Forall_map. eapply Forall_impl; [ | exact Htyped ].
  intros key [_ [Hv _]]. exact Hv.
Qed.

(** X2.  The keys that either form works with are the keyframes of the
    descriptors, every one of them once, in some order: sorting loses and
    adds nothing. *)
Theorem validKeys_rearranges (inputKeyframes : list object) (keys : list Keyframe) :
  EKeys.validKeys inputKeyframes = Return keys \/
  (exists h, AnimGroup.AnimGroup h inputKeyframes = Return keys) ->
  Permutation (map keyframeOf inputKeyframes) keys /\
  List.length keys = List.length inputKeyframes.
Proof.
  intros H. destruct (keys_are_sorted_keyframes _ _ H) as [-> _].
  pose proof (Array_sort_Permutation byKeyTime (map keyframeOf inputKeyframes)) as Hperm.
  split; [ exact Hperm | ].
  rewrite <- (Permutation_length Hperm). apply length_map.
Qed.

(** X4.  A list of descriptors that the one-shot form validates, the group form
    validates too, to the same sorted keys. *)
Theorem validKeys_accepted_by_group (h : Host) (inputKeyframes : list object)
  (keys : list Keyframe) :
  EKeys.validKeys inputKeyframes = Return keys ->
  AnimGroup.AnimGroup h inputKeyframes = Return keys.
Proof.
  unfold EKeys.validKeys, AnimGroup.AnimGroup, Array_map. intros H.
  apply bind_Return in H. destruct H as [validated [Hv H]].
  rewrite (mapi_from_agree _ (AnimGroup.validateKeyframe h) _ _ _
             (validateKeyframe_agree h) Hv).
  exact H.
Qed.

(** X5.  The first descriptor that does not validate stops the one-shot form:
    its error, which carries its position in the input, is the outcome,
    whatever follows it in the list and whatever the numeric time. *)
Theorem first_invalid_keyframe_stops_animate (h : Host)
  (before : list object) (invalid : object) (after : list object)
  (validated : list Keyframe) (e : exn) (time : float)
  (interpolator : option EKeys.interpolatorFn) :
  Array_map EKeys.validateKeyframe before = Return validated ->
  EKeys.validateKeyframe invalid (List.length before) = Throw e ->
  oneShot h (before ++ invalid :: after) time interpolator = Throw e.
Proof.
  intros Hbefore Hinvalid. unfold oneShot, EKeys.animate, EKeys.validKeys, Array_map in *.
  cbn -[mapi_from EKeys.animateBetweenKeys Array_sort].
  rewrite mapi_from_app, Hbefore. cbn -[EKeys.animateBetweenKeys Array_sort].
  rewrite Hinvalid. reflexivity.
Qed.

(** X6.  The first descriptor that does not validate stops the construction of
    a group with its error: no group is made, and a query of one written in
    the same expression ends in that error whatever the time. *)
Theorem first_invalid_keyframe_stops_AnimGroup (h : Host)
  (before : list object) (invalid : object) (after : list object)
  (validated : list Keyframe) (e : exn) :
  Array_map (AnimGroup.validateKeyframe h) before = Return validated ->
  AnimGroup.validateKeyframe h invalid (List.length before) = Throw e ->
  AnimGroup.AnimGroup h (before ++ invalid :: after) = Throw e /\
  (forall time : value, groupQuery h (before ++ invalid :: after) time = Throw e).
Proof.
  intros Hbefore Hinvalid.
  assert (H : AnimGroup.AnimGroup h (before ++ invalid :: after) = Throw e).
  { unfold AnimGroup.AnimGroup, Array_map in *.
    rewrite mapi_from_app, Hbefore. cbn -[Array_sort].
    rewrite Hinvalid. reflexivity. }
  split; [ exact H | ]. intros time. unfold groupQuery. rewrite H. reflexivity.
Qed.

End ListValidation.

(** ** The arguments of the two entry points *)

Section Arguments.
Variable h : Host.

(** X7.  The time is checked before anything else.  A time that is not a number
    makes the one-shot form throw the type error of its [inputTime], whatever
    the keyframes are, valid or not; the group form throws the type error
    that starts with the text of the value, and with no time at all it
    throws the error of the required argument. *)
Theorem time_must_be_number (inputKeyframes : list object) (keys : list Keyframe)
  (interpolator : option EKeys.interpolatorFn) (time : value) :
  typeof_number time = false ->
  time <> VUndefined ->
  EKeys.animate h inputKeyframes
    (Some {| EKeys.inputTime := time; EKeys.interpolator := interpolator |}) =
    Throw (TypeError (".animate() input time must be of type number. Received " ++
                      getType time)) /\
  AnimGroup.anim h keys time =
    Throw (TypeError (String_of_value h time ++
                      " must be of type number. Received " ++ getType time)) /\
  AnimGroup.anim h keys VUndefined = Throw (Error "time is required in .anim inputs").
Proof.
  intros Hnumber Hdefined.
  unfold EKeys.animate, AnimGroup.anim, AnimGroup.animateBetweenKeys.
  destruct time; try discriminate; try congruence; repeat split; reflexivity.
Qed.

(** X8.  With no keyframe at all, a group is constructed, but every query of it
    at a numeric time, like every one-shot evaluation, ends in the engine's
    [TypeError]: the first keyframe is read and there is none. *)
Theorem no_keyframes (time : float) (interpolator : option EKeys.interpolatorFn) :
  oneShot h [] time interpolator = Throw NativeTypeError /\
  AnimGroup.AnimGroup h [] = Return [] /\
  groupQuery h [] (VNumber time) = Throw NativeTypeError.
Proof. repeat split; reflexivity. Qed.

(** X9.  A single keyframe gives its value at every time, as long as the time
    and its [keyTime] are numbers other than [NaN]. *)
Theorem single_keyframe_constant (interpolator : option EKeys.interpolatorFn)
  (key : Keyframe) (time : float) :
  isNumeric time -> isNumeric (keyTime key) ->
  EKeys.animateBetweenKeys h interpolator [key] time = Return (keyValue key) /\
  AnimGroup.anim h [key] (VNumber time) = Return (keyValue key).
Proof.
  unfold isNumeric. intros Ht Hk.
  unfold EKeys.animateBetweenKeys, AnimGroup.anim, AnimGroup.animateBetweenKeys.
  cbn -[getCurrentKeyNum].
  destruct (leb_total _ _ Ht Hk) as [H | H]; rewrite H.
  - split; reflexivity.
  - destruct (time <=? keyTime key); split; reflexivity.
Qed.

(** X10.  With a single keyframe and a time or a [keyTime] that is [NaN], neither
    boundary test holds, the keyframe after the only one is read, and the
    outcome is the engine's [TypeError]. *)
Theorem single_keyframe_NaN (interpolator : option EKeys.interpolatorFn)
  (key : Keyframe) (time : float) :
  (time =? time) = false \/ (keyTime key =? keyTime key) = false ->
  EKeys.animateBetweenKeys h interpolator [key] time = Throw NativeTypeError /\
  AnimGroup.anim h [key] (VNumber time) = Throw NativeTypeError.
Proof.
  intros H.
  assert (Hcmp : (time <=? keyTime key) = false /\ (keyTime key <=? time) = false).
  { destruct H as [H | H].
    - exact (nan_leb _ (keyTime key) H).
    - destruct (nan_leb _ time H). split; assumption. }
  destruct Hcmp as [H1 H2].
  unfold EKeys.animateBetweenKeys, AnimGroup.anim, AnimGroup.animateBetweenKeys.
  cbn. rewrite H1, H2. split; reflexivity.
Qed.

End Arguments.

(** ** The scan for the current keyframe *)

Section Scan.



(** X12.  On a sequence in ascending order the scan finds the bracket: the index
    of the keyframe [curKey] with [curKey.keyTime <= time <
    nextKey.keyTime]. *)
Theorem getCurrentKeyNum_finds_bracket (pre : list Keyframe)
  (curKey nextKey : Keyframe) (post : list Keyframe) (time : float) :
  ascending (pre ++ curKey :: nextKey :: post) ->
  reached time curKey ->
  (time <? keyTime nextKey) = true ->
  getCurrentKeyNum (pre ++ curKey :: nextKey :: post) time = List.length pre /\
  nth_error (pre ++ curKey :: nextKey :: post)
            (getCurrentKeyNum (pre ++ curKey :: nextKey :: post) time) = Some curKey.
Proof.
  intros Hasc Hcur Hnext.
  destruct (bracket_located pre curKey nextKey post time Hasc Hcur Hnext) as [Hnum _].
  rewrite Hnum. split; [ reflexivity | ].
  rewrite nth_error_app2 by lia. rewrite Nat.sub_diag. reflexivity.
Qed.

End Scan.

(** ** Interpolating between two keyframes *)

Section Interpolation.
Variable h : Host.

Lemma mapi_pure_from_length {A B : Type} (f : A -> nat -> B) (index : nat)
  (l : list A) :
  List.length (mapi_pure_from f index l) = List.length l.
Proof.
  revert index. induction l as [ | x l IH]; intros index; simpl; [ | rewrite IH ];
    reflexivity.
Qed.

Lemma nth_mapi_pure_from {A B : Type} (f : A -> nat -> B) (index i : nat)
  (l : list A) (d : B) (d' : A) :
  (i < List.length l)%nat ->
  nth i (mapi_pure_from f index l) d = f (nth i l d') (index + i)%nat.
Proof.
  revert index i. induction l as [ | x l IH]; intros index i Hi; simpl in *.
  - lia.
  - destruct i as [ | i].
    + rewrite Nat.add_0_r. reflexivity.
    + rewrite IH by lia. f_equal. lia.
Qed.

(** The three [map]s of [animateArrayFromProgress] on arrays of one length
    amount to the scalar rule applied to each pair of elements. *)
Lemma animateArrayFromProgress_lerp (curKeyNum : nat)
  (startArray endArray : list float) (progressAmount : float) :
  List.length startArray = List.length endArray ->
  EKeys.animateArrayFromProgress curKeyNum startArray endArray progressAmount =
  Return (VArray None (map (lerp progressAmount) (combine startArray endArray))).
Proof.
  intros Hlen. unfold EKeys.animateArrayFromProgress.
  rewrite Hlen, Nat.eqb_refl. cbn [negb]. do 2 f_equal.
  apply nth_ext with (d := nan) (d' := lerp progressAmount (nan, nan)).
  - unfold Array_mapi. rewrite mapi_pure_from_length, length_map, length_combine. lia.
  - unfold Array_mapi. rewrite mapi_pure_from_length. intros i Hi.
    rewrite (nth_mapi_pure_from _ 0 i startArray nan nan Hi).
    rewrite (map_nth (lerp progressAmount) (combine startArray endArray) (nan, nan) i).
    rewrite combine_nth by exact Hlen.
    unfold lerp, element. cbn [fst snd Nat.add]. f_equal.
    rewrite (nth_indep _ nan ((fun item => item * progressAmount) nan))
      by (rewrite length_map, mapi_pure_from_length; lia).
    rewrite (map_nth (fun item => item * progressAmount)). f_equal.
    rewrite (nth_mapi_pure_from _ 0 i endArray nan nan) by lia.
    reflexivity.
Qed.

(** X13.  Between two adjacent keyframes of an ascending sequence whose values
    are numbers that differ, once the easing step has returned, the
    one-shot form returns [start + (end - start) * eased]. *)
Theorem scalar_interpolation (interpolator : option EKeys.interpolatorFn)
  (pre : list Keyframe) (curKey nextKey : Keyframe) (post : list Keyframe)
  (time startVal endVal eased : float) :
  ascending (pre ++ curKey :: nextKey :: post) ->
  (keyTime curKey <? time) = true ->
  (time <? keyTime nextKey) = true ->
  keyValue curKey = VNumber startVal ->
  keyValue nextKey = VNumber endVal ->
  (startVal =? endVal) = false ->
  EKeys.easedProgress h interpolator curKey nextKey
    (EKeys.linearProgress curKey nextKey time) = Return eased ->
  EKeys.animateBetweenKeys h interpolator (pre ++ curKey :: nextKey :: post) time =
  Return (VNumber (startVal + (endVal - startVal) * eased)).
Proof.
  intros Hasc Hcur Hnext Hstart Hend Hdiffer Heased.
  destruct (animateBetweenKeys_between h interpolator _ _ _ _ time Hasc Hcur Hnext)
    as [-> Hmiss].
  unfold EKeys.animateFromTo.
  rewrite Hmiss, Heased, Hstart, Hend. cbn [strict_equal]. rewrite Hdiffer.
  reflexivity.
Qed.

(** X14.  Between two adjacent keyframes of an ascending sequence whose values
    are two arrays of one length (and not one and the same array), once the
    easing step has returned, the one-shot form returns a new array, of that
    length, of [start + (end - start) * eased] element by element. *)
Theorem vector_interpolation (interpolator : option EKeys.interpolatorFn)
  (pre : list Keyframe) (curKey nextKey : Keyframe) (post : list Keyframe)
  (time : float) (r1 r2 : option nat) (startArray endArray : list float)
  (eased : float) :
  ascending (pre ++ curKey :: nextKey :: post) ->
  (keyTime curKey <? time) = true ->
  (time <? keyTime nextKey) = true ->
  keyValue curKey = VArray r1 startArray ->
  keyValue nextKey = VArray r2 endArray ->
  List.length startArray = List.length endArray ->
  same_ref r1 r2 = false ->
  EKeys.easedProgress h interpolator curKey nextKey
    (EKeys.linearProgress curKey nextKey time) = Return eased ->
  EKeys.animateBetweenKeys h interpolator (pre ++ curKey :: nextKey :: post) time =
    Return (VArray None (map (lerp eased) (combine startArray endArray))) /\
  List.length (map (lerp eased) (combine startArray endArray)) =
    List.length startArray.
Proof.
  intros Hasc Hcur Hnext Hstart Hend Hlen Hdistinct Heased.
  destruct (animateBetweenKeys_between h interpolator _ _ _ _ time Hasc Hcur Hnext)
    as [-> Hmiss].
  split.
  - unfold EKeys.animateFromTo.
    rewrite Hmiss, Heased, Hstart, Hend. cbn [strict_equal bind]. rewrite Hdistinct.
    apply animateArrayFromProgress_lerp. exact Hlen.
  - rewrite length_map, length_combine. lia.
Qed.

(** X15.  When the two values are [===] (equal numbers, or one and the same
    array), a time between the two keyframes returns the value as it stands
    and the easing step is not run: the result is the same whatever the
    interpolator and the handles, also handles for which [bezier] throws. *)
Theorem equal_values_skip_easing (interpolator : option EKeys.interpolatorFn)
  (pre : list Keyframe) (curKey nextKey : Keyframe) (post : list Keyframe)
  (time : float) :
  ascending (pre ++ curKey :: nextKey :: post) ->
  (keyTime curKey <? time) = true ->
  (time <? keyTime nextKey) = true ->
  strict_equal (keyValue curKey) (keyValue nextKey) = true ->
  EKeys.animateBetweenKeys h interpolator (pre ++ curKey :: nextKey :: post) time =
  Return (keyValue curKey).
Proof.
  intros Hasc Hcur Hnext Hsame.
  destruct (animateBetweenKeys_between h interpolator _ _ _ _ time Hasc Hcur Hnext)
    as [-> _].
  unfold EKeys.animateFromTo. rewrite Hsame. reflexivity.
Qed.

(** Whatever the one-shot form returns for validated keys is a number or an
    array: it never returns [undefined]. *)
Lemma animateBetweenKeys_shape (interpolator : option EKeys.interpolatorFn)
  (keys : list Keyframe) (time : float) (v : value) :
  Forall (fun k => numberOrArray (keyValue k)) keys ->
  EKeys.animateBetweenKeys h interpolator keys time = Return v ->
  numberOrArray v.
Proof.
  intros Hshape. rewrite Forall_forall in Hshape.
  unfold EKeys.animateBetweenKeys.
  destruct (nth_error keys (List.length keys - 1)) as [lastKey | ] eqn:Elast;
    [ | discriminate ].
  destruct (nth_error keys 0) as [firstKey | ] eqn:Efirst; [ | discriminate ].
  destruct (time <=? keyTime firstKey).
  { intros H. injection H as <-. exact (Hshape _ (nth_error_In _ _ Efirst)). }
  destruct (keyTime lastKey <=? time).
  { intros H. injection H as <-. exact (Hshape _ (nth_error_In _ _ Elast)). }
  destruct (nth_error keys (getCurrentKeyNum keys time)) as [curKey | ] eqn:Ecur;
    [ | discriminate ].
  destruct (nth_error keys (getCurrentKeyNum keys time + 1)) as [nextKey | ];
    [ | discriminate ].
  pose proof (Hshape _ (nth_error_In _ _ Ecur)) as Hcur.
  unfold EKeys.animateFromTo.
  destruct (strict_equal _ _); [ intros H; injection H as <-; exact Hcur | ].
  destruct (time =? keyTime curKey); [ intros H; injection H as <-; exact Hcur | ].
  intros H. apply bind_Return in H. destruct H as [eased [_ H]].
  unfold EKeys.animateArrayFromProgress in H.
  destruct (keyValue curKey), (keyValue nextKey); try discriminate;
    try (injection H as <-; left; reflexivity).
  destruct (negb _); [ discriminate | ]. injection H as <-. right. reflexivity.
Qed.

(** X16.  Whatever the one-shot form returns at a numeric time is a number or an
    array: never [undefined], [null], a string or another object, whatever
    the descriptors and the interpolator. *)
Theorem oneShot_returns_number_or_array (inputKeyframes : list object)
  (time : float) (interpolator : option EKeys.interpolatorFn) (v : value) :
  oneShot h inputKeyframes time interpolator = Return v ->
  numberOrArray v.
Proof.
  unfold oneShot, EKeys.animate.
  cbn -[EKeys.validKeys EKeys.animateBetweenKeys].
  intros H. apply bind_Return in H. destruct H as [keys [Hkeys H]].
  exact (animateBetweenKeys_shape _ _ _ _
           (keys_numberOrArray inputKeyframes keys (or_introl Hkeys)) H).
Qed.

End Interpolation.

(** ** More on the validation of a descriptor *)

Section MoreValidation.

(** X17.  A descriptor without [keyValue] does not validate, at any index: both
    forms throw the error that names [keyValue] and the index (the group
    form once it has found a [keyTime], the one-shot form once it has found
    no unknown property). *)
Theorem missing_keyValue_rejected (key : object) (index : nat) :
  get key "keyValue" = VUndefined ->
  (forall h : Host,
     get key "keyTime" <> VUndefined ->
     AnimGroup.validateKeyframe h key index =
     Throw (Error ("keyValue is required in keyframe " ++ String_of_nat index))) /\
  (unknownNames key = [] ->
   EKeys.validateKeyframe key index =
   Throw (Error ("keyValue is required in keyframe " ++ String_of_nat index))).
Proof.
  intros Hmissing. split.
  - intros h Htime. unfold AnimGroup.validateKeyframe, AnimGroup.get_required.
    rewrite Hmissing. destruct (get key "keyTime"); try congruence; reflexivity.
  - intros Hknown. unfold EKeys.validateKeyframe. fold (unknownNames key).
    rewrite Hknown, Hmissing. destruct (get key "keyTime"); reflexivity.
Qed.

(** X18.  A [keyTime] that is there but is not a number is a type error in both
    forms, once the descriptor has a [keyValue] (and, in the one-shot form,
    no unknown property).  The one-shot form names the field, the expected
    type and the type received, and takes [null] for a missing [keyTime];
    the group form starts the message with the text of the value, [null]
    included. *)
Theorem keyTime_must_be_number (key : object) (index : nat) :
  typeof_number (get key "keyTime") = false ->
  (forall h : Host,
     get key "keyTime" <> VUndefined ->
     get key "keyValue" <> VUndefined ->
     AnimGroup.validateKeyframe h key index =
     Throw (TypeError (String_of_value h (get key "keyTime") ++
                       " must be of type number. Received " ++
                       getType (get key "keyTime")))) /\
  (unknownNames key = [] ->
   loosely_null (get key "keyTime") = false ->
   loosely_null (get key "keyValue") = false ->
   EKeys.validateKeyframe key index =
   Throw (TypeError (("Keyframe " ++ String_of_nat index ++ " time") ++
                     " must be of type number. Received " ++
                     getType (get key "keyTime")))) /\
  (unknownNames key = [] ->
   get key "keyTime" = VNull ->
   EKeys.validateKeyframe key index =
   Throw (Error ("keyValue is required in keyframe " ++ String_of_nat index))).
Proof.
  intros Hnumber. split; [ | split ].
  - intros h Htime Hvalue. unfold AnimGroup.validateKeyframe, AnimGroup.get_required.
    destruct (get key "keyTime"); try congruence; try discriminate;
      destruct (get key "keyValue"); try congruence; reflexivity.
  - intros Hknown Htime Hvalue. unfold EKeys.validateKeyframe. fold (unknownNames key).
    rewrite Hknown, Htime, Hvalue.
    destruct (get key "keyTime"); try discriminate; reflexivity.
  - intros Hknown Hnull. unfold EKeys.validateKeyframe. fold (unknownNames key).
    rewrite Hknown, Hnull. reflexivity.
Qed.

End MoreValidation.

(** ** More on easing *)

Section MoreEasing.
Variable h : Host.

(** X19.  Every easing function that [bezier] returns maps 0 to 0 and 1 to 1,
    exactly, whatever the four handles. *)
Theorem bezier_endpoints_exact (mX1 mY1 mX2 mY2 : float) (easing : float -> float) :
  Easing.bezier h mX1 mY1 mX2 mY2 = Return easing ->
  easing 0 = 0 /\ easing 1 = 1.
Proof.
  unfold Easing.bezier.
  destruct (negb _); [ discriminate | ].
  destruct (_ && _)%bool; intros H; injection H as <-; split; reflexivity.
Qed.

(** X20.  Each polynomial entry of the table [interpolators] maps 0 to 0 and 1 to
    1 exactly, so an animation that uses it starts and ends on the values
    of the keyframes. *)
Theorem polynomial_interpolators_fix_endpoints :
  Forall (fun entry => snd entry 0 = 0 /\ snd entry 1 = 1) EKeys.polynomialInterpolators.
Proof. repeat constructor. Qed.

End MoreEasing.

(** ** The progress between two keyframes *)

Section Progress.

(** [Math.max(a, 0)] is [NaN] or not negative. *)
Lemma Math_max_0 (a : float) :
  Math_max a 0 = nan \/ (0 <=? Math_max a 0) = true.
Proof.
  unfold Math_max. destruct (is_nan a) eqn:Enan; [ left; reflexivity | ].
  cbn [orb]. change (is_nan 0) with false. cbn iota.
  apply is_nan_false in Enan.
  destruct (a <? 0) eqn:Eneg; [ right; reflexivity | ].
  destruct (0 <? a) eqn:Epos; [ right; exact (ltb_leb _ _ Epos) | ].
  destruct (get_sign a); [ right; reflexivity | ].
  right. apply eqb_leb. exact (not_ltb_eqb a 0 Enan eq_refl Eneg Epos).
Qed.

(** [Math.min(1, q)] of a [q] that is [NaN] or not negative is [NaN] or
    between 0 and 1. *)
Lemma Math_min_1 (q : float) :
  is_nan q = true \/ (0 <=? q) = true ->
  is_nan (Math_min 1 q) = true \/
  ((0 <=? Math_min 1 q) = true /\ (Math_min 1 q <=? 1) = true).
Proof.
  unfold Math_min. change (is_nan 1) with false. cbn [orb].
  intros [Hnan | Hq].
  - rewrite Hnan. left. reflexivity.
  - pose proof (leb_eqb_refl _ _ Hq) as Hnum.
    assert (Enan : is_nan q = false) by (unfold is_nan; rewrite Hnum; reflexivity).
    rewrite Enan. right.
    destruct (1 <? q) eqn:Eabove; [ split; reflexivity | ].
    destruct (q <? 1) eqn:Ebelow; [ split; [ exact Hq | exact (ltb_leb _ _ Ebelow) ] | ].
    change (get_sign 1) with false. cbn iota.
    split; [ exact Hq | ].
    exact (proj1 (eqb_leb_both _ _ (not_ltb_eqb q 1 Hnum eq_refl Ebelow Eabove))).
Qed.

(** X21.  Between a keyframe and a later one, the progress computed for a time,
    which is what the easing receives, is [NaN] or lies between 0 and 1,
    whatever the time: the two clamps hold. *)
Theorem linearProgress_clamped (curKey nextKey : Keyframe) (time : float) :
  (keyTime curKey <? keyTime nextKey) = true ->
  is_nan (EKeys.linearProgress curKey nextKey time) = true \/
  ((0 <=? EKeys.linearProgress curKey nextKey time) = true /\
   (EKeys.linearProgress curKey nextKey time <=? 1) = true).
Proof.
  intros Hlength. rewrite <- sub_positive in Hlength.
  unfold EKeys.linearProgress. apply Math_min_1.
  destruct (Math_max_0 (time - keyTime curKey)) as [E | H].
  - rewrite E. left. apply nan_div.
  - exact (div_nonneg _ _ H Hlength).
Qed.

End Progress.

(** ** The order of the keys *)

Section Sorting.

(** Putting a keyframe into keys in ascending order keeps them so, as long
    as no [keyTime] is [NaN]. *)
Lemma insert_sorted_ascending (x : Keyframe) (sorted : list Keyframe) :
  isNumeric (keyTime x) ->
  Forall (fun k => isNumeric (keyTime k)) sorted ->
  ascending sorted ->
  ascending (insert_sorted byKeyTime x sorted).
Proof.
  intros Hx Hnum Hasc. induction Hasc as [ | y l Hl IH Hy]; simpl.
  - constructor; constructor.
  - inversion Hnum as [ | ? ? Hy' Hl']; subst.
    unfold byKeyTime at 1. rewrite sub_positive.
    destruct (keyTime x <? keyTime y) eqn:E.
    + constructor; [ constructor; assumption | ].
      constructor; [ exact (ltb_leb _ _ E) | ].
      eapply Forall_impl; [ | exact Hy ]. intros k Hk. unfold notAfter in *.
      exact (leb_trans _ _ _ (ltb_leb _ _ E) Hk).
    + constructor; [ exact (IH Hl') | ].
      eapply Permutation_Forall; [ apply insert_sorted_Permutation | ].
      constructor; [ exact (not_ltb_leb _ _ Hx Hy' E) | exact Hy ].
Qed.

Lemma Array_sort_ascending (keys : list Keyframe) :
  Forall (fun k => isNumeric (keyTime k)) keys ->
  ascending (Array_sort byKeyTime keys).
Proof.
  unfold Array_sort.
  assert (H : forall sorted : list Keyframe,
             Forall (fun k => isNumeric (keyTime k)) sorted ->
             ascending sorted ->
             Forall (fun k => isNumeric (keyTime k)) keys ->
             ascending (fold_left (fun s x => insert_sorted byKeyTime x s) keys sorted)).
  { induction keys as [ | x keys IH]; intros sorted Hnum Hasc Hkeys; simpl.
    - exact Hasc.
    - inversion Hkeys as [ | ? ? Hx Hrest]; subst. apply IH.
      + eapply Permutation_Forall; [ apply insert_sorted_Permutation | ].
        constructor; assumption.
      + apply insert_sorted_ascending; assumption.
      + exact Hrest. }
  intros Hkeys. apply H; [ constructor | constructor | exact Hkeys ].
Qed.

(** X3.  The keys that either form works with are in ascending order of
    [keyTime], whatever the order of the descriptors, when no [keyTime] is
    [NaN]: what the boundary tests and the scan for the current key rely
    on. *)
Theorem keys_are_ascending (inputKeyframes : list object) (keys : list Keyframe) :
  EKeys.validKeys inputKeyframes = Return keys \/
  (exists h, AnimGroup.AnimGroup h inputKeyframes = Return keys) ->
  Forall (fun key => isNumeric (asNumber (get key "keyTime"))) inputKeyframes ->
  ascending keys.
Proof.
  intros H Hnum. destruct (keys_are_sorted_keyframes _ _ H) as [-> _].
  apply Array_sort_ascending. apply Forall_map. exact Hnum.
Qed.

End Sorting.

(** ** The further properties at inputs of the examples *)

Section MoreInstances.
Import Examples.

Ltac in_order := repeat (constructor; try reflexivity).

Lemma validKeys_rearranges_witness :
  Permutation (map keyframeOf zeroToHundred)
    [validated 0 (VNumber 0); validated 10 (VNumber 100)] /\
  List.length [validated 0 (VNumber 0); validated 10 (VNumber 100)] =
    List.length zeroToHundred.
Proof.
  apply (validKeys_rearranges zeroToHundred
           [validated 0 (VNumber 0); validated 10 (VNumber 100)]).
  left. reflexivity.
Defined.

Lemma validKeys_accepted_by_group_witness :
  AnimGroup.AnimGroup referenceHost zeroToHundred =
  Return [validated 0 (VNumber 0); validated 10 (VNumber 100)].
Proof.
  apply (validKeys_accepted_by_group referenceHost zeroToHundred). reflexivity.
Defined.

(** A valid descriptor, then [{keyValue: 5}], then a valid one: the error
    carries the index 1. *)
Lemma first_invalid_keyframe_stops_animate_witness :
  oneShot referenceHost
    ([descriptor (VNumber 0) (VNumber 0)] ++
     onlyValue :: [descriptor (VNumber 10) (VNumber 100)]) 5 None =
  Throw (Error "keyValue is required in keyframe 1").
Proof.
  apply (first_invalid_keyframe_stops_animate referenceHost
           [descriptor (VNumber 0) (VNumber 0)] onlyValue
           [descriptor (VNumber 10) (VNumber 100)]
           [validated 0 (VNumber 0)]); reflexivity.
Defined.

Lemma first_invalid_keyframe_stops_AnimGroup_witness :
  AnimGroup.AnimGroup referenceHost
    ([descriptor (VNumber 0) (VNumber 0)] ++
     onlyValue :: [descriptor (VNumber 10) (VNumber 100)]) =
    Throw (Error "keyTime is required in keyframe 1") /\
  (forall time : value,
     groupQuery referenceHost
       ([descriptor (VNumber 0) (VNumber 0)] ++
        onlyValue :: [descriptor (VNumber 10) (VNumber 100)]) time =
     Throw (Error "keyTime is required in keyframe 1")).
Proof.
  apply (first_invalid_keyframe_stops_AnimGroup referenceHost
           [descriptor (VNumber 0) (VNumber 0)] onlyValue
           [descriptor (VNumber 10) (VNumber 100)]
           [validated 0 (VNumber 0)]); reflexivity.
Defined.

(** The time given as the string ['5'], with a descriptor that would not
    validate. *)
Lemma time_must_be_number_witness :
  EKeys.animate referenceHost [onlyValue]
    (Some {| EKeys.inputTime := VString "5"; EKeys.interpolator := None |}) =
    Throw (TypeError ".animate() input time must be of type number. Received string") /\
  AnimGroup.anim referenceHost [] (VString "5") =
    Throw (TypeError "5 must be of type number. Received string") /\
  AnimGroup.anim referenceHost [] VUndefined =
    Throw (Error "time is required in .anim inputs").
Proof.
  apply (time_must_be_number referenceHost [onlyValue] [] None (VString "5")).
  - reflexivity.
  - discriminate.
Defined.

Lemma single_keyframe_constant_witness :
  EKeys.animateBetweenKeys referenceHost None [validated 3 (VNumber 7)] 100 =
    Return (VNumber 7) /\
  AnimGroup.anim referenceHost [validated 3 (VNumber 7)] (VNumber 100) =
    Return (VNumber 7).
Proof.
  apply (single_keyframe_constant referenceHost None (validated 3 (VNumber 7)) 100);
    reflexivity.
Defined.

Lemma single_keyframe_NaN_witness :
  EKeys.animateBetweenKeys referenceHost None [validated 3 (VNumber 7)] nan =
    Throw NativeTypeError /\
  AnimGroup.anim referenceHost [validated 3 (VNumber 7)] (VNumber nan) =
    Throw NativeTypeError.
Proof.
  apply (single_keyframe_NaN referenceHost None (validated 3 (VNumber 7)) nan).
  left. reflexivity.
Defined.

Lemma getCurrentKeyNum_finds_bracket_witness :
  getCurrentKeyNum
    ([validated 0 (VNumber 0)] ++
     validated 5 (VNumber 1) :: validated 10 (VNumber 2) :: []) 7 = 1%nat /\
  nth_error
    ([validated 0 (VNumber 0)] ++
     validated 5 (VNumber 1) :: validated 10 (VNumber 2) :: [])
    (getCurrentKeyNum
       ([validated 0 (VNumber 0)] ++
        validated 5 (VNumber 1) :: validated 10 (VNumber 2) :: []) 7) =
  Some (validated 5 (VNumber 1)).
Proof.
  apply (getCurrentKeyNum_finds_bracket [validated 0 (VNumber 0)]
           (validated 5 (VNumber 1)) (validated 10 (VNumber 2)) [] 7);
    try reflexivity.
  in_order.
Defined.

(** From 0 to 100 with [easeInQuad] as the interpolator, a quarter of the
    way: the outgoing ease of 150 percent plays no part. *)
Lemma scalar_interpolation_witness :
  EKeys.animateBetweenKeys referenceHost
    (Some (EKeys.asInterpolator EKeys.easeInQuad))
    ([] ++ overshooting 0 (VNumber 0) :: validated 10 (VNumber 100) :: []) 2.5 =
  Return (VNumber 6.25).
Proof.
  apply (scalar_interpolation referenceHost
           (Some (EKeys.asInterpolator EKeys.easeInQuad)) []
           (overshooting 0 (VNumber 0)) (validated 10 (VNumber 100)) []
           2.5 0 100 0.0625);
    try reflexivity.
  in_order.
Defined.

(** The vector example of the specification. *)
Lemma vector_interpolation_witness :
  EKeys.animateBetweenKeys referenceHost (Some EKeys.linear)
    ([] ++ validated 0 (VArray None [0; 0]) ::
           validated 10 (VArray None [10; 20]) :: []) 5 =
    Return (VArray None [5; 10]) /\
  List.length (map (lerp 0.5) (combine [0; 0] [10; 20])) = List.length [0; 0].
Proof.
  apply (vector_interpolation referenceHost (Some EKeys.linear) []
           (validated 0 (VArray None [0; 0]))
           (validated 10 (VArray None [10; 20])) [] 5 None None
           [0; 0] [10; 20] 0.5);
    try reflexivity.
  in_order.
Defined.

(** Two keyframes with the value 7 and an outgoing ease of 150 percent:
    no range error. *)
Lemma equal_values_skip_easing_witness :
  EKeys.animateBetweenKeys referenceHost None
    ([] ++ overshooting 0 (VNumber 7) :: validated 10 (VNumber 7) :: []) 5 =
  Return (VNumber 7).
Proof.
  apply (equal_values_skip_easing referenceHost None []
           (overshooting 0 (VNumber 7)) (validated 10 (VNumber 7)) [] 5);
    try reflexivity.
  in_order.
Defined.

Lemma oneShot_returns_number_or_array_witness : numberOrArray (VNumber 50).
Proof.
  apply (oneShot_returns_number_or_array referenceHost zeroToHundred 5
           (Some EKeys.linear) (VNumber 50)).
  reflexivity.
Defined.

Lemma missing_keyValue_rejected_witness :
  (forall h : Host,
     AnimGroup.validateKeyframe h onlyTime 2 =
     Throw (Error "keyValue is required in keyframe 2")) /\
  EKeys.validateKeyframe onlyTime 2 =
    Throw (Error "keyValue is required in keyframe 2").
Proof.
  destruct (missing_keyValue_rejected onlyTime 2 eq_refl) as [Hgroup Hshot].
  split; [ intros h; apply Hgroup; discriminate | exact (Hshot eq_refl) ].
Defined.

Lemma keyTime_must_be_number_witness :
  AnimGroup.validateKeyframe referenceHost textTime 0 =
    Throw (TypeError "0 must be of type number. Received string") /\
  EKeys.validateKeyframe textTime 0 =
    Throw (TypeError "Keyframe 0 time must be of type number. Received string").
Proof.
  destruct (keyTime_must_be_number textTime 0 eq_refl) as [Hgroup [Hshot _]].
  split.
  - apply Hgroup; discriminate.
  - exact (Hshot eq_refl eq_refl eq_refl).
Defined.

Lemma bezier_endpoints_exact_witness :
  Easing.bezierEasing (Easing.sampleValues referenceHost 0.25 0.25) 0.25 0.1 0.25 1 0 = 0 /\
  Easing.bezierEasing (Easing.sampleValues referenceHost 0.25 0.25) 0.25 0.1 0.25 1 1 = 1.
Proof.
  apply (bezier_endpoints_exact referenceHost 0.25 0.1 0.25 1). reflexivity.
Defined.

(** Keyframes at 0 and 10, the time 5. *)
Lemma linearProgress_clamped_witness :
  is_nan (EKeys.linearProgress (validated 0 (VNumber 0)) (validated 10 (VNumber 100)) 5) =
    true \/
  ((0 <=? EKeys.linearProgress (validated 0 (VNumber 0))
            (validated 10 (VNumber 100)) 5) = true /\
   (EKeys.linearProgress (validated 0 (VNumber 0))
      (validated 10 (VNumber 100)) 5 <=? 1) = true).
Proof.
  apply (linearProgress_clamped (validated 0 (VNumber 0))
           (validated 10 (VNumber 100)) 5).
  reflexivity.
Defined.

Lemma anim_never_interpolates_witness :
  VUndefined = VUndefined \/
  exists key,
    In key [validated 0 (VNumber 0); validated 10 (VNumber 100)] /\
    VUndefined = keyValue key.
Proof.
  apply (anim_never_interpolates referenceHost
           [validated 0 (VNumber 0); validated 10 (VNumber 100)]
           (VNumber 5) VUndefined).
  reflexivity.
Defined.

(** Three descriptors given out of order. *)
Lemma keys_are_ascending_witness :
  ascending [validated 0 (VNumber 0); validated 5 (VNumber 50);
             validated 10 (VNumber 100)].
Proof.
  apply (keys_are_ascending outOfOrder).
  - left. reflexivity.
  - repeat constructor.
Defined.

End MoreInstances.
